(** * The Vx delegate core ([delegate_main.cc]) as a shallow embedding

    The delegate lowers a subgraph of a TensorFlow Lite model to a TIM-VX
    graph.  This file embeds the functions of [delegate_main.cc]:
    [PrepareDelegate], [TfLiteTensorDims], [TfLiteDtypeToVsiDtype],
    [CreateTensorSpec], [TransposeTensorData], [CreateTensor],
    [MapIndexesToTensors], [Delegate::SupportedOp], [Delegate::Init] and
    [Delegate::Invoke], the functions of the node registration, the buffer
    hooks, and [Delegate::Create], [VxDelegate], [VxDelegateCreate] and
    [VxDelegateDelete], and proves properties of them.

    Conventions.
    - A C++ [int] is a [Z]; conversions between integer types are written
      out ([to_uint32], [to_int32], [to_size_t]).
    - A [std::vector] is a [list]; an index operation outside the vector,
      a failed [assert], dereferencing a null pointer and an exception that
      escapes ([std::map::at] on an absent key) are the outcome
      [Undefined].
    - A [std::shared_ptr<tim::vx::Tensor>] is an [option Handle]: [None] is
      the null pointer, [Some h] the [h]-th tensor created in the graph.
    - [TFLITE_LOG] lines are collected in a log; a [FATAL] line ends the
      process ([Aborted]). *)

From Stdlib Require Import ZArith Lia.
From stdpp Require Import base option list gmap strings.

Local Open Scope Z_scope.

(** ** Integer conversions *)

Definition to_uint32 (z : Z) : Z := z mod 2 ^ 32.

Definition to_int32 (z : Z) : Z := (z + 2 ^ 31) mod 2 ^ 32 - 2 ^ 31.

(** [size_t] is 64 bits wide (LP64). *)
Definition size_t_bits : Z := 64.

Definition to_size_t (z : Z) : Z := z mod 2 ^ size_t_bits.

Definition INT_MAX : Z := 2 ^ 31 - 1.

(** [v[i]] for a [size_t] index held in a [Z]. *)
Definition at_Z {A} (v : list A) (i : Z) : option A :=
  if decide (0 <= i) then v !! Z.to_nat i else None.

(** [v.resize(n)]: keeps the first [n] elements, pads with [d]. *)
Definition resize_to {A} (n : nat) (d : A) (v : list A) : list A :=
  take n v ++ replicate (n - length v) d.

(** ** Logging and outcomes *)

Inductive LogSeverity := INFO | WARN | ERROR | FATAL.

(** One operand of a [<<] chain. *)
Inductive LogChunk :=
| LStr (s : string)
| LInt (z : Z)
| LPtr.

Definition LogLine : Type := LogSeverity * list LogChunk.

Inductive Outcome (A : Type) : Type :=
| Done (a : A) (log : list LogLine)
| Aborted (log : list LogLine)
| Undefined.

Arguments Done {A} a log.
Arguments Aborted {A} log.
Arguments Undefined {A}.

Definition outcome_bind {A B} (f : A -> Outcome B) (m : Outcome A) : Outcome B :=
  match m with
  | Done a l =>
      match f a with
      | Done b l' => Done b (l ++ l')
      | Aborted l' => Aborted (l ++ l')
      | Undefined => Undefined
      end
  | Aborted l => Aborted l
  | Undefined => Undefined
  end.

#[global] Instance outcome_ret : MRet Outcome := fun A a => Done a [].
#[global] Instance outcome_mbind : MBind Outcome := @outcome_bind.

(** Modelled from the spec: the macro [TFLITE_LOG] of
    [tensorflow/lite/tools/logging.h] is not part of the sources.  The spec
    (section 7) has a condition logged at the highest severity end the
    invocation: the line is written and the process aborts.  The lower
    severities only write the line. *)
Definition TFLITE_LOG (severity : LogSeverity) (msg : list LogChunk) : Outcome unit :=
  match severity with
  | FATAL => Aborted [(FATAL, msg)]
  | _ => Done tt [(severity, msg)]
  end.

(** An operation that is undefined when [o] is [None]. *)
Definition defined {A} (o : option A) : Outcome A :=
  match o with
  | Some a => Done a []
  | None => Undefined
  end.

(** [assert(b)]. *)
Definition assert (b : bool) : Outcome unit :=
  if b then Done tt [] else Undefined.

(** A range-based [for] loop whose body updates the state [s]. *)
Fixpoint for_each {A S} (body : A -> S -> Outcome S) (l : list A) (s : S) : Outcome S :=
  match l with
  | [] => mret s
  | x :: l' => s' ← body x s; for_each body l' s'
  end.

(** ** Host (TensorFlow Lite) data *)

Inductive TfLiteStatus := kTfLiteOk | kTfLiteError | kTfLiteDelegateError.

Inductive TfLiteType :=
| kTfLiteNoType | kTfLiteFloat32 | kTfLiteInt32 | kTfLiteUInt8 | kTfLiteInt64
| kTfLiteString | kTfLiteBool | kTfLiteInt16 | kTfLiteComplex64 | kTfLiteInt8
| kTfLiteFloat16 | kTfLiteFloat64.

(** The value of the enumerator, as [operator<<] prints it. *)
Definition TfLiteType_code (t : TfLiteType) : Z :=
  match t with
  | kTfLiteNoType => 0 | kTfLiteFloat32 => 1 | kTfLiteInt32 => 2
  | kTfLiteUInt8 => 3 | kTfLiteInt64 => 4 | kTfLiteString => 5
  | kTfLiteBool => 6 | kTfLiteInt16 => 7 | kTfLiteComplex64 => 8
  | kTfLiteInt8 => 9 | kTfLiteFloat16 => 10 | kTfLiteFloat64 => 11
  end.

Inductive TfLiteAllocationType :=
| kTfLiteMemNone | kTfLiteMmapRo | kTfLiteArenaRw | kTfLiteArenaRwPersistent
| kTfLiteDynamic.

#[global] Instance TfLiteAllocationType_eq_dec : EqDecision TfLiteAllocationType.
Proof. solve_decision. Defined.

Inductive TfLiteQuantizationType := kTfLiteNoQuantization | kTfLiteAffineQuantization.

(** A [float] is only ever copied by this code: it is carried as its
    IEEE-754 bit pattern. *)
Definition float32 : Type := Z.

Record TfLiteAffineQuantization := {
  scale : list float32;
  zero_point : list Z;
  quantized_dimension : Z
}.

Record TfLiteQuantization := {
  q_type : TfLiteQuantizationType;
  (** [params]; [None] is the null pointer. *)
  q_params : option TfLiteAffineQuantization
}.

Record TfLiteTensor := {
  type : TfLiteType;
  (** [dims->data], a list of [int]. *)
  dims : list Z;
  quantization : TfLiteQuantization;
  allocation_type : TfLiteAllocationType;
  is_variable : bool;
  (** [data.raw] / [data.raw_const]; [None] is the null pointer. *)
  data_raw : option (list Byte.byte);
  bytes : nat;
  name : string
}.

(** ** Accelerator (TIM-VX) data *)

Inductive DataType := FLOAT32 | INT32 | UINT8 | INT16 | INT8 | FLOAT16.

Inductive TensorAttribute := CONSTANT | TRANSIENT | VARIABLE | INPUT | OUTPUT.

Inductive QuantType := NONE | ASYMMETRIC | SYMMETRIC_PER_CHANNEL.

(** The three constructors of [tim::vx::Quantization] the code calls. *)
Inductive Quantization :=
| Quantization_default
| Quantization_scalar (qtype : QuantType) (scale : float32) (zero_point : Z)
| Quantization_channel (qtype : QuantType) (channel_dim : Z)
    (scales : list float32) (zero_points : list Z).

Record TensorSpec := {
  datatype_ : DataType;
  shape_ : list Z;
  attr_ : TensorAttribute;
  quantization_ : Quantization
}.

(** A [std::shared_ptr<tim::vx::Tensor>] that is not null: the position of
    the tensor in the graph it was created in.  Tensors of different
    graphs are not told apart: the embedding follows the code on a
    delegate whose tables hold no tensor of an earlier graph, as every
    delegate that the [init] of the registration makes.  On a delegate
    that is initialised again after a build, the code looks a tensor of
    the old graph up in the map of the new one, finds none and
    dereferences null; that is not modelled. *)
Definition Handle : Type := nat.

Inductive VxTensor :=
| VxTensor_created (spec : TensorSpec) (data : option (list Byte.byte))
| VxTensor_placeholder.

(** An operation node of the accelerator graph, with the tensors bound to
    it. *)
Record VxOperation := {
  op_kind : string;
  op_inputs : list (option Handle);
  op_outputs : list (option Handle)
}.

Record Graph := {
  g_tensors : list VxTensor;
  g_ops : list VxOperation
}.

(** [context_->CreateGraph()]. *)
Definition Graph_empty : Graph := {| g_tensors := []; g_ops := [] |}.

(** [graph->CreateTensor(spec, data)]. *)
Definition Graph_CreateTensor (graph : Graph) (spec : TensorSpec)
    (data : option (list Byte.byte)) : Graph * option Handle :=
  ({| g_tensors := g_tensors graph ++ [VxTensor_created spec data];
      g_ops := g_ops graph |},
   Some (length (g_tensors graph))).

(** [graph->CreateTensorPlaceHolder()]. *)
Definition Graph_CreateTensorPlaceHolder (graph : Graph) : Graph * option Handle :=
  ({| g_tensors := g_tensors graph ++ [VxTensor_placeholder];
      g_ops := g_ops graph |},
   Some (length (g_tensors graph))).

(** [v[i] = x] on a vector. *)
Definition store_at {A} (v : list A) (i : nat) (x : A) : Outcome (list A) :=
  if decide (i < length v)%nat then mret (<[i:=x]> v) else Undefined.

Arguments store_at : simpl never.

(** [std::transform(l.begin(), l.end(), back_inserter(out), f)] on an empty
    [out]. *)
Fixpoint transform {A B} (f : A -> Outcome B) (l : list A) : Outcome (list B) :=
  match l with
  | [] => mret []
  | x :: l' => y ← f x; ys ← transform f l'; mret (y :: ys)
  end.

(** ** Tensor bridge *)

Definition TfLiteTensorDims (tensor : TfLiteTensor) : list Z :=
  map to_uint32 (dims tensor).

Definition TfLiteDtypeToVsiDtype (type : TfLiteType) : Outcome DataType :=
  match type with
  | kTfLiteFloat32 => mret FLOAT32
  | kTfLiteInt32 => mret INT32
  | kTfLiteUInt8 => mret UINT8
  | kTfLiteInt16 => mret INT16
  | kTfLiteInt8 => mret INT8
  | kTfLiteBool => mret INT8
  | kTfLiteFloat16 => mret FLOAT16
  | _ =>
      _ ← TFLITE_LOG ERROR [LStr "Unsuppoted type:"; LInt (TfLiteType_code type)];
      mret FLOAT32
  end.

Definition IsConstTensor (tensor : TfLiteTensor) : bool :=
  bool_decide (data_raw tensor <> None).

Definition IsVariableTensor (tensor : TfLiteTensor) : bool :=
  is_variable tensor.

(** [(index + tensors.size()) % tensors.size()]: the index is an [int], the
    size a [size_t]; the sum and the remainder are computed in [size_t]. *)
Definition wrapped_index (size index : Z) : Z :=
  to_size_t (to_size_t index + size) mod size.

Definition MapIndexesToTensors (tensors : list (option Handle)) (indexes : list Z)
    : Outcome (list (option Handle)) :=
  transform
    (fun index =>
       let size := Z.of_nat (length tensors) in
       _ ← assert (bool_decide (size <> 0));
       defined (at_Z tensors (wrapped_index size index)))
    indexes.

(** ** Nodes, registrations and the host context *)

Record TfLiteRegistration := {
  builtin_code : Z;
  (** [None] is the null pointer. *)
  custom_name : option string
}.

Record TfLiteNode := {
  inputs : list Z;
  outputs : list Z;
  (** [None] is the null pointer. *)
  user_data : option (list Byte.byte);
  builtin_data : option (list Byte.byte)
}.

Record TfLiteContext := {
  (** [tensors_size] is the length of [tensors]. *)
  tensors : list TfLiteTensor;
  (** The status and the value left in the [plan] out-parameter. *)
  GetExecutionPlan : TfLiteStatus * option (list Z);
  (** The status and the values left in the two out-parameters. *)
  GetNodeAndRegistration : Z -> TfLiteStatus * option (TfLiteNode * TfLiteRegistration);
  (** The host's subgraph-replacement call, on the array it is handed. *)
  ReplaceNodeSubsetsWithDelegateKernels : list Z -> TfLiteStatus
}.

Definition set_tensors (context : TfLiteContext) (ts : list TfLiteTensor) : TfLiteContext :=
  {| tensors := ts;
     GetExecutionPlan := GetExecutionPlan context;
     GetNodeAndRegistration := GetNodeAndRegistration context;
     ReplaceNodeSubsetsWithDelegateKernels :=
       ReplaceNodeSubsetsWithDelegateKernels context |}.

Definition set_data_raw (tensor : TfLiteTensor) (data : option (list Byte.byte))
    : TfLiteTensor :=
  {| type := type tensor; dims := dims tensor;
     quantization := quantization tensor;
     allocation_type := allocation_type tensor;
     is_variable := is_variable tensor;
     data_raw := data; bytes := bytes tensor; name := name tensor |}.

Record TfLiteDelegateParams := {
  nodes_to_replace : list Z;
  input_tensors : list Z;
  output_tensors : list Z
}.

(** An entry of the operator catalogue ([op_map.h]): the interface the
    delegate uses. *)
Record IOpMapper := {
  IsSupported : TfLiteContext -> TfLiteNode -> TfLiteRegistration -> bool;
  GetParamSize : nat;
  (** The result and the indexes written to the [states] out-parameter. *)
  GetStateTensorIndexes :
    TfLiteContext -> TfLiteNode -> TfLiteRegistration -> bool * list Z;
  (** The lowering: appends to the graph. *)
  MapOp :
    Graph -> list (option Handle) -> list (option Handle) ->
    list (option Handle) -> list Byte.byte -> Graph
}.

(** ** The delegate's own records ([delegate_main.h]) *)

Module Op.
Record OperationDataType := {
  builtin_code : Z;
  custom_name : string;
  inputs : list Z;
  outputs : list Z;
  states : list Z;
  builtin_data : list Byte.byte
}.

Definition empty : OperationDataType :=
  {| builtin_code := 0; custom_name := EmptyString; inputs := []; outputs := [];
     states := []; builtin_data := [] |}.
End Op.

Record OpData := {
  subgraph_inputs : list Z;
  subgraph_outputs : list Z;
  subgraph_states : list Z
}.

Record Delegate := {
  compiled_ : bool;
  graph_ : Graph;
  tensors_ : list (option Handle);
  state_tensors_ : list (option Handle);
  operations_ : list Op.OperationDataType;
  (** The graph after layout inference and the map from the tensors of
      [graph_] to its tensors. *)
  layout_infered_ : Graph * gmap Handle Handle
}.

(** [Delegate::Delegate() {}]. *)
Definition Delegate_new : Delegate :=
  {| compiled_ := false; graph_ := Graph_empty; tensors_ := [];
     state_tensors_ := []; operations_ := [];
     layout_infered_ := (Graph_empty, ∅) |}.

(** What [Delegate::Invoke] reads and writes: the delegate, the host
    context and the memory [Device] of the accelerator. *)
Record Machine (Device : Type) := {
  m_delegate : Delegate;
  m_context : TfLiteContext;
  m_device : Device
}.

Arguments m_delegate {Device} _.
Arguments m_context {Device} _.
Arguments m_device {Device} _.

(** [v.insert(v.end(), src.begin(), src.end())] by [std::copy] into a
    [back_inserter]. *)
Definition copy_back {A} (src dst : list A) : list A := dst ++ src.

(** [memcpy(dst, src, n)] into a buffer of [n] bytes. *)
Definition memcpy_n (src : list Byte.byte) (n : nat) : Outcome (list Byte.byte) :=
  if decide (n <= length src)%nat then mret (take n src) else Undefined.

(** ** Axis conversion *)

Module utils.

(** Modelled from the spec: [vx::delegate::utils::ConvertAxis] of [utils.h]
    is not part of the sources.  The spec (sections 3 and 4.3) has the
    accelerator shape be the reverse of the host shape and the channel axis
    of a per-channel quantization re-expressed in accelerator axis
    numbering by the rule applied to shapes: the host axis [axis] of a
    shape of rank [dim_num] is the accelerator axis [dim_num - 1 - axis]. *)
Definition ConvertAxis (axis dim_num : Z) : Z := dim_num - 1 - axis.

End utils.

Section Delegate.

(** [vx::delegate::utils::ConvertAxis] of [utils.h], which is not part of
    the sources: a parameter here, and [utils.ConvertAxis] where a property
    depends on what it computes. *)
Variable ConvertAxis : Z -> Z -> Z.

(** [tflite::reference_ops::Transpose] at an element width in bytes:
    permutation, input shape, input bytes, output shape and the output
    buffer it fills. *)
Variable Transpose :
  nat -> list nat -> list Z -> list Byte.byte -> list Z -> list Byte.byte ->
  list Byte.byte.

(** The capacity of [tflite::TransposeParams::perm]. *)
Variable TransposeParams_perm_size : nat.

(** The body of the two loops over a permutation:
    [shape[i] = dims[perm[i]]]. *)
Definition gather_dim (dims : list Z) (perm : list nat) (i : nat)
    (shape : list Z) : Outcome (list Z) :=
  p ← defined (perm !! i);
  d ← defined (dims !! p);
  store_at shape i d.

Definition CreateTensorSpec (tensor : TfLiteTensor) (perm : list nat)
    (attr : TensorAttribute) : Outcome TensorSpec :=
  datatype ← TfLiteDtypeToVsiDtype (type tensor);
  let dims := TfLiteTensorDims tensor in
  let whcn_shape := replicate (length dims) 0 in
  let dims := if decide (length dims = 0%nat) then dims ++ [1] else dims in
  whcn_shape ←
    (if decide (0 < length perm)%nat then
       _ ← assert (bool_decide (length perm = length dims));
       whcn_shape ← for_each (gather_dim dims perm) (seq 0 (length perm)) whcn_shape;
       mret (reverse whcn_shape)
     else mret (reverse dims));
  match q_type (quantization tensor) with
  | kTfLiteAffineQuantization =>
      params ← defined (q_params (quantization tensor));
      let scales := scale params in
      let zero_points := zero_point params in
      let qtype := ASYMMETRIC in
      quantization ←
        (if decide (1 < length scales)%nat then
           let qtype := SYMMETRIC_PER_CHANNEL in
           let channel_dim := quantized_dimension params in
           let vx_channel_dim := ConvertAxis channel_dim (Z.of_nat (length dims)) in
           mret (Quantization_channel qtype vx_channel_dim scales zero_points)
         else
           scales_0 ← defined (scales !! 0%nat);
           zero_points_0 ← defined (zero_points !! 0%nat);
           mret (Quantization_scalar qtype scales_0 zero_points_0));
      mret {| datatype_ := datatype; shape_ := whcn_shape; attr_ := attr;
              quantization_ := quantization |}
  | kTfLiteNoQuantization =>
      mret {| datatype_ := datatype; shape_ := whcn_shape; attr_ := attr;
              quantization_ := Quantization_default |}
  end.

(** The element width [TransposeTensorData] transposes at; [None] is the
    [default] case of its [switch]. *)
Definition transpose_width (type : TfLiteType) : option nat :=
  match type with
  | kTfLiteFloat32 | kTfLiteInt32 => Some 4%nat
  | kTfLiteInt16 | kTfLiteFloat16 => Some 2%nat
  | kTfLiteUInt8 | kTfLiteInt8 => Some 1%nat
  | _ => None
  end.

(** Returns the [bool] result and the contents of [data_out]. *)
Definition TransposeTensorData (tensor : TfLiteTensor) (perm : list nat)
    (data_out : list Byte.byte) : Outcome (bool * list Byte.byte) :=
  match data_raw tensor with
  | None => mret (false, data_out)
  | Some tensor_data =>
      let output_shape := replicate (length perm) 0 in
      output_shape ←
        for_each
          (fun i output_shape =>
             _ ← assert (bool_decide (i < TransposeParams_perm_size)%nat);
             gather_dim (dims tensor) perm i output_shape)
          (seq 0 (length perm)) output_shape;
      let data_out := resize_to (bytes tensor) Byte.x00 data_out in
      match transpose_width (type tensor) with
      | Some width =>
          mret (true,
                Transpose width perm (dims tensor) tensor_data output_shape data_out)
      | None =>
          _ ← TFLITE_LOG ERROR
                [LStr "Unsupported type: "; LInt (TfLiteType_code (type tensor))];
          mret (false, data_out)
      end
  end.

Definition CreateTensor (graph : Graph) (tensor : TfLiteTensor)
    (attr : TensorAttribute) (perm : list nat) : Outcome (Graph * option Handle) :=
  let tensor_data : option (list Byte.byte) := None in
  spec ← CreateTensorSpec tensor perm attr;
  match attr with
  | INPUT | OUTPUT | VARIABLE => mret (Graph_CreateTensor graph spec tensor_data)
  | CONSTANT =>
      let tensor_data := data_raw tensor in
      if decide (0 < length perm)%nat then
        '(transposed, data_transposed) ← TransposeTensorData tensor perm [];
        if transposed : bool
        then mret (Graph_CreateTensor graph spec (Some data_transposed))
        else mret (Graph_CreateTensor graph spec tensor_data)
      else mret (Graph_CreateTensor graph spec tensor_data)
  | TRANSIENT => mret (Graph_CreateTensor graph spec tensor_data)
  end.

(** ** Legality filter *)

(** The two registries of [op_map.h]: [vx::op_map::SupportedBuiltinOps()]
    keyed by builtin code and [vx::op_map::SupportedBuiltinCustomOps()]
    keyed by custom name. *)
Variable SupportedBuiltinOps : gmap Z IOpMapper.
Variable SupportedBuiltinCustomOps : gmap string IOpMapper.

(** The part of [Delegate::SupportedOp] from the builtin lookup on. *)
Definition SupportedOp_builtin (context : TfLiteContext) (node : TfLiteNode)
    (registration : TfLiteRegistration) : Outcome bool :=
  match SupportedBuiltinOps !! builtin_code registration with
  | Some it => mret (IsSupported it context node registration)
  | None =>
      _ ← TFLITE_LOG ERROR
            [LStr "Fallback unsupported op "; LInt (builtin_code registration);
             LStr " to TfLite"];
      mret false
  end.

Definition SupportedOp (context : TfLiteContext) (node : TfLiteNode)
    (registration : TfLiteRegistration) : Outcome bool :=
  match custom_name registration with
  | Some name =>
      match SupportedBuiltinCustomOps !! name with
      | Some it => mret (IsSupported it context node registration)
      | None => SupportedOp_builtin context node registration
      end
  | None => SupportedOp_builtin context node registration
  end.

(** The loop of [PrepareDelegate]; [inl status] is the early [return] of
    [TF_LITE_ENSURE_STATUS]. *)
Fixpoint PrepareDelegate_loop (context : TfLiteContext) (plan : list Z)
    (supported_nodes : list Z) : Outcome (TfLiteStatus + list Z) :=
  match plan with
  | [] => mret (inr supported_nodes)
  | node_index :: plan' =>
      let '(status, out) := GetNodeAndRegistration context node_index in
      match status with
      | kTfLiteOk =>
          '(node, registration) ← defined out;
          supported ← SupportedOp context node registration;
          PrepareDelegate_loop context plan'
            (if supported : bool then supported_nodes ++ [node_index]
             else supported_nodes)
      | _ => mret (inl status)
      end
  end.

(** The returned status and, when the call is reached, the array handed to
    [ReplaceNodeSubsetsWithDelegateKernels]. *)
Definition PrepareDelegate (context : TfLiteContext)
    : Outcome (TfLiteStatus * option (list Z)) :=
  let '(status, plan) := GetExecutionPlan context in
  match status with
  | kTfLiteOk =>
      plan ← defined plan;
      let supported_nodes := [0] in
      r ← PrepareDelegate_loop context plan supported_nodes;
      match r with
      | inl status => mret (status, None)
      | inr supported_nodes =>
          supported_nodes ←
            store_at supported_nodes 0
              (to_int32 (to_size_t (Z.of_nat (length supported_nodes) - 1)));
          mret (ReplaceNodeSubsetsWithDelegateKernels context supported_nodes,
                Some supported_nodes)
      end
  | _ => mret (status, None)
  end.

(** The array handed to the host read as a [TfLiteIntArray]: [size] and
    [data]. *)
Definition as_TfLiteIntArray (v : list Z) : option (Z * list Z) :=
  match v with
  | size :: data => Some (size, data)
  | [] => None
  end.

(** ** Subgraph extraction *)

(** The body of the node loop of [Delegate::Init], at position [i]. *)
Definition Init_node (context : TfLiteContext) (params : TfLiteDelegateParams)
    (i : nat) (st : list Op.OperationDataType * list Z)
    : Outcome (list Op.OperationDataType * list Z) :=
  let '(operations_, subgraph_states) := st in
  node_idx ← defined (nodes_to_replace params !! i);
  '(node, reg) ← defined (GetNodeAndRegistration context node_idx).2;
  operation ← defined (operations_ !! i);
  let op_custom_name :=
    match custom_name reg with
    | Some n => n
    | None => Op.custom_name operation
    end in
  let op_builtin_code := builtin_code reg in
  let isbuiltinOp := bool_decide (op_custom_name = EmptyString) in
  let op_inputs := copy_back (inputs node) (Op.inputs operation) in
  let op_outputs := copy_back (outputs node) (Op.outputs operation) in
  '(has_states, states) ←
    (if isbuiltinOp then
       it ← defined (SupportedBuiltinOps !! builtin_code reg);
       mret (GetStateTensorIndexes it context node reg)
     else
       it ← defined (SupportedBuiltinCustomOps !! op_custom_name);
       mret (GetStateTensorIndexes it context node reg));
  let op_states :=
    if has_states : bool then copy_back states (Op.states operation)
    else Op.states operation in
  let subgraph_states :=
    if has_states then copy_back states subgraph_states else subgraph_states in
  op_builtin_data ←
    (if negb isbuiltinOp && bool_decide (user_data node <> None) then
       it ← defined (SupportedBuiltinCustomOps !! op_custom_name);
       src ← defined (user_data node);
       memcpy_n src (GetParamSize it)
     else if isbuiltinOp && bool_decide (builtin_data node <> None) then
       it ← defined (SupportedBuiltinOps !! builtin_code reg);
       src ← defined (builtin_data node);
       memcpy_n src (GetParamSize it)
     else mret (Op.builtin_data operation));
  operations_ ←
    store_at operations_ i
      {| Op.builtin_code := op_builtin_code; Op.custom_name := op_custom_name;
         Op.inputs := op_inputs; Op.outputs := op_outputs;
         Op.states := op_states; Op.builtin_data := op_builtin_data |};
  mret (operations_, subgraph_states).

(** The loop of [Delegate::Init] over [params->input_tensors]. *)
Definition Init_input (context : TfLiteContext) (input_tensor_idx : Z)
    (subgraph_inputs : list Z) : Outcome (list Z) :=
  tensor ← defined (at_Z (tensors context) input_tensor_idx);
  if decide (allocation_type tensor <> kTfLiteMmapRo)
  then mret (subgraph_inputs ++ [input_tensor_idx])
  else mret subgraph_inputs.

(** [Delegate::Init] on the delegate [d]: the delegate afterwards and the
    [OpData] returned. *)
Definition Init (d : Delegate) (context : TfLiteContext)
    (params : TfLiteDelegateParams) : Outcome (Delegate * OpData) :=
  _ ← TFLITE_LOG INFO [LStr "vx_delegate Delegate::Init"];
  let compiled := false in
  let tensors_size := length (tensors context) in
  let tensors := resize_to (tensors_size + 1) None (tensors_ d) in
  let state_tensors := resize_to (tensors_size + 1) None (state_tensors_ d) in
  subgraph_inputs ← for_each (Init_input context) (input_tensors params) [];
  let subgraph_outputs := copy_back (output_tensors params) [] in
  let operations :=
    resize_to (length (nodes_to_replace params)) Op.empty (operations_ d) in
  '(operations, subgraph_states) ←
    for_each (Init_node context params)
      (seq 0 (length (nodes_to_replace params))) (operations, []);
  mret ({| compiled_ := compiled; graph_ := graph_ d; tensors_ := tensors;
           state_tensors_ := state_tensors; operations_ := operations;
           layout_infered_ := layout_infered_ d |},
        {| subgraph_inputs := subgraph_inputs;
           subgraph_outputs := subgraph_outputs;
           subgraph_states := subgraph_states |}).

(** ** Graph builder and execution driver *)

(** The accelerator runtime: the memory of the compiled graph's tensors and
    the TIM-VX calls on it.  [CopyDataToTensor] and [CopyDataFromTensor]
    return a [bool] that the delegate drops; they are given by their effect
    on the device and on the host buffer ([None]: a null pointer). *)
Variable Device : Type.
Variable LayoutInference : Graph -> Graph * gmap Handle Handle.
Variable Compile : Graph -> bool.
Variable Run : Graph -> Device -> bool * Device.
Variable CopyDataToTensor : Device -> Handle -> option (list Byte.byte) -> Device.
Variable CopyDataFromTensor :
  Device -> Handle -> option (list Byte.byte) -> option (list Byte.byte).


(** The guarded creation that the loops of the build share:
    [if (-1 != tensor_idx && table[tensor_idx].get() == nullptr)
       table[tensor_idx] = CreateTensor(graph_, tensor, attr, {});]
    on the table [table] ([tensors_] or [state_tensors_]), with the storage
    class chosen from the host tensor by [attr_of]. *)
Definition create_if_null (context : TfLiteContext)
    (attr_of : TfLiteTensor -> TensorAttribute) (tensor_idx : Z)
    (st : Graph * list (option Handle)) : Outcome (Graph * list (option Handle)) :=
  let '(graph, table) := st in
  if decide (-1 <> tensor_idx) then
    entry ← defined (at_Z table tensor_idx);
    match entry with
    | None =>
        tensor ← defined (at_Z (tensors context) tensor_idx);
        '(graph, created) ← CreateTensor graph tensor (attr_of tensor) [];
        table ← store_at table (Z.to_nat tensor_idx) created;
        mret (graph, table)
    | Some _ => mret st
    end
  else mret st.

(** The storage class of a node operand. *)
Definition operand_attr (tensor : TfLiteTensor) : TensorAttribute :=
  if IsConstTensor tensor then CONSTANT
  else if IsVariableTensor tensor then VARIABLE
  else TRANSIENT.

(** The body of the [create op] loop for one [op_info]. *)
Definition Invoke_create_op (context : TfLiteContext) (op_info : Op.OperationDataType)
    (st : Graph * list (option Handle) * list (option Handle))
    : Outcome (Graph * list (option Handle) * list (option Handle)) :=
  let '(graph, tensors, state_tensors) := st in
  let inputs_outputs :=
    copy_back (Op.outputs op_info) (copy_back (Op.inputs op_info) []) in
  '(graph, tensors) ←
    for_each (create_if_null context operand_attr) inputs_outputs (graph, tensors);
  '(graph, state_tensors) ←
    for_each (create_if_null context (fun _ => OUTPUT)) (Op.states op_info)
      (graph, state_tensors);
  inputs_tensors ← MapIndexesToTensors tensors (Op.inputs op_info);
  outputs_tensors ← MapIndexesToTensors tensors (Op.outputs op_info);
  states_tensors ← MapIndexesToTensors state_tensors (Op.states op_info);
  it ←
    (if bool_decide (Op.custom_name op_info <> EmptyString)
     then defined (SupportedBuiltinCustomOps !! Op.custom_name op_info)
     else defined (SupportedBuiltinOps !! Op.builtin_code op_info));
  mret (MapOp it graph inputs_tensors outputs_tensors states_tensors
          (Op.builtin_data op_info),
        tensors, state_tensors).

(** The build up to and without layout inference: the placeholder, the
    subgraph inputs and outputs, and the operations. *)
Definition Invoke_build_graph (op_data : OpData) (d : Delegate)
    (context : TfLiteContext)
    : Outcome (Graph * list (option Handle) * list (option Handle)) :=
  let graph := Graph_empty in
  let '(graph, placeholder) := Graph_CreateTensorPlaceHolder graph in
  tensors ←
    defined
      (let last := to_size_t (Z.of_nat (length (tensors_ d)) - 1) in
       _ ← at_Z (tensors_ d) last;
       Some (<[Z.to_nat last := placeholder]> (tensors_ d)));
  '(graph, tensors) ←
    for_each (create_if_null context (fun _ => INPUT)) (subgraph_inputs op_data)
      (graph, tensors);
  '(graph, tensors) ←
    for_each (create_if_null context (fun _ => OUTPUT)) (subgraph_outputs op_data)
      (graph, tensors);
  for_each (Invoke_create_op context) (operations_ d)
    (graph, tensors, state_tensors_ d).

(** The [if (!compiled_)] block; [Some status] is its early [return]. *)
Definition Invoke_compile (op_data : OpData) (d : Delegate)
    (context : TfLiteContext) : Outcome (option TfLiteStatus * Delegate) :=
  '(graph, tensors, state_tensors) ← Invoke_build_graph op_data d context;
  _ ← TFLITE_LOG INFO [LStr "Verifying graph"];
  let layout_infered := LayoutInference graph in
  let compiled := Compile layout_infered.1 in
  let d' :=
    {| compiled_ := compiled; graph_ := graph; tensors_ := tensors;
       state_tensors_ := state_tensors; operations_ := operations_ d;
       layout_infered_ := layout_infered |} in
  if negb compiled then
    _ ← TFLITE_LOG FATAL [LStr "Failed to verify graph"];
    mret (Some kTfLiteDelegateError, d')
  else
    _ ← TFLITE_LOG INFO [LStr "Verified graph"];
    mret (None, d').

(** The tensor of the compiled graph that stands for [src]:
    [layout_infered_.second[src]], dereferenced. *)
Definition infered_tensor (d : Delegate) (src : option Handle) : Outcome Handle :=
  defined (h ← src; (layout_infered_ d).2 !! h).

(** The body of the input copy loop. *)
Definition Invoke_copy_input (d : Delegate) (context : TfLiteContext)
    (tensor_idx : Z) (device : Device) : Outcome Device :=
  tf_tensor ← defined (at_Z (tensors context) tensor_idx);
  _ ← TFLITE_LOG INFO
        [LStr "Copying input "; LInt tensor_idx; LStr ":"; LStr (name tf_tensor)];
  src_input_tensor ← defined (at_Z (tensors_ d) tensor_idx);
  _ ← (if bool_decide (src_input_tensor = None)
       then TFLITE_LOG FATAL [LStr "Failed to copy input tensor!"]
       else mret tt);
  let tensor_data := data_raw tf_tensor in
  infered_input_tensor ← infered_tensor d src_input_tensor;
  mret (CopyDataToTensor device infered_input_tensor tensor_data).

(** The body of the output copy loop and, on [state_tensors_], of the state
    copy loop; [what] and [failure] are the texts of their log lines. *)
Definition Invoke_copy_back (d : Delegate) (table : list (option Handle))
    (what failure : string) (device : Device) (tensor_idx : Z)
    (context : TfLiteContext) : Outcome TfLiteContext :=
  tf_tensor ← defined (at_Z (tensors context) tensor_idx);
  _ ← TFLITE_LOG INFO
        [LStr what; LInt tensor_idx; LStr ":"; LStr (name tf_tensor)];
  src_tensor ← defined (at_Z table tensor_idx);
  _ ← (if bool_decide (src_tensor = None)
       then TFLITE_LOG FATAL [LStr failure]
       else mret tt);
  let tensor_data := data_raw tf_tensor in
  infered ← infered_tensor d src_tensor;
  mret (set_tensors context
          (<[Z.to_nat tensor_idx :=
               set_data_raw tf_tensor (CopyDataFromTensor device infered tensor_data)]>
             (tensors context))).

(** [Delegate::Invoke] up to the call of [Run]: the build when the delegate
    is not compiled, then the input copy.  [inl status] is the early
    [return] of the build. *)
Definition Invoke_before_run (op_data : OpData) (m : Machine Device)
    (node : TfLiteNode)
    : Outcome (TfLiteStatus * Machine Device + Machine Device) :=
  _ ← TFLITE_LOG INFO [LStr "Delegate::Invoke node:"; LPtr];
  '(returned, d) ←
    (if negb (compiled_ (m_delegate m))
     then Invoke_compile op_data (m_delegate m) (m_context m)
     else mret (None, m_delegate m));
  match returned with
  | Some status =>
      mret (inl (status,
                 {| m_delegate := d; m_context := m_context m;
                    m_device := m_device m |}))
  | None =>
      device ←
        for_each (Invoke_copy_input d (m_context m)) (subgraph_inputs op_data)
          (m_device m);
      mret (inr {| m_delegate := d; m_context := m_context m;
                   m_device := device |})
  end.

(** [Delegate::Invoke] from the call of [Run] on. *)
Definition Invoke_run (op_data : OpData) (m : Machine Device)
    : Outcome (TfLiteStatus * Machine Device) :=
  let d := m_delegate m in
  _ ← TFLITE_LOG INFO [LStr "Invoking graph"];
  let '(ran, device) := Run (layout_infered_ d).1 (m_device m) in
  _ ← (if negb ran then TFLITE_LOG FATAL [LStr "Failed to run graph"] else mret tt);
  context ←
    for_each
      (Invoke_copy_back d (tensors_ d) "Copying output "
         "Failed to copy output tensor!" device)
      (subgraph_outputs op_data) (m_context m);
  context ←
    for_each
      (Invoke_copy_back d (state_tensors_ d) "Copying state " "Disaster!" device)
      (subgraph_states op_data) context;
  mret (kTfLiteOk,
        {| m_delegate := d; m_context := context; m_device := device |}).

Definition Invoke (op_data : OpData) (m : Machine Device) (node : TfLiteNode)
    : Outcome (TfLiteStatus * Machine Device) :=
  r ← Invoke_before_run op_data m node;
  match r with
  | inl returned => mret returned
  | inr m => Invoke_run op_data m
  end.

(** ** Well-formed arguments *)

(** The quantization metadata [CreateTensorSpec] reads without leaving a
    vector: none, or parameters with several scales, or with at least one
    scale and one zero point. *)
Definition quantization_ok (tensor : TfLiteTensor) : bool :=
  match q_type (quantization tensor), q_params (quantization tensor) with
  | kTfLiteNoQuantization, _ => true
  | kTfLiteAffineQuantization, Some params =>
      bool_decide (1 < length (scale params))%nat
      || (bool_decide (scale params <> []) && bool_decide (zero_point params <> []))
  | kTfLiteAffineQuantization, None => false
  end.

(** No permutation, or one of the length of the host shape whose entries
    are axes of it. *)
Definition perm_ok (tensor : TfLiteTensor) (perm : list nat) : bool :=
  match perm with
  | [] => true
  | _ =>
      bool_decide (length perm = length (dims tensor))
      && forallb (fun p => bool_decide (p < length (dims tensor))%nat) perm
  end.

(** The shape [CreateTensorSpec] computes from the host shape [dims]. *)
Definition whcn_shape_of (dims : list Z) (perm : list nat) : list Z :=
  match perm with
  | [] => reverse (match dims with [] => [1] | _ => dims end)
  | _ => reverse ((fun p => nth p dims 0) <$> perm)
  end.

(** The rank [CreateTensorSpec] passes to [ConvertAxis]: the rank after a
    scalar is made a vector. *)
Definition vx_rank (tensor : TfLiteTensor) : Z :=
  match dims tensor with
  | [] => 1
  | _ => Z.of_nat (length (dims tensor))
  end.

(** The quantization [CreateTensorSpec] computes. *)
Definition quantization_of (tensor : TfLiteTensor) : Quantization :=
  match q_type (quantization tensor), q_params (quantization tensor) with
  | kTfLiteAffineQuantization, Some params =>
      match scale params, zero_point params with
      | _ :: _ :: _, _ =>
          Quantization_channel SYMMETRIC_PER_CHANNEL
            (ConvertAxis (quantized_dimension params) (vx_rank tensor))
            (scale params) (zero_point params)
      | [s], z :: _ => Quantization_scalar ASYMMETRIC s z
      | _, _ => Quantization_default
      end
  | _, _ => Quantization_default
  end.

(** The classification of the node [node_index] of the plan: the result of
    [SupportedOp] on its node and registration. *)
Definition classified_supported (context : TfLiteContext) (node_index : Z) : bool :=
  match (GetNodeAndRegistration context node_index).2 with
  | Some (node, registration) =>
      match SupportedOp context node registration with
      | Done supported _ => supported
      | _ => false
      end
  | None => false
  end.

(** A parameter blob that is absent or holds [n] bytes at least. *)
Definition param_data_ok (data : option (list Byte.byte)) (n : nat) : bool :=
  match data with
  | Some src => bool_decide (n <= length src)%nat
  | None => true
  end.

(** The nodes [Delegate::Init] can extract: the host knows the node, the
    registry that [Init] consults for it (the custom one for a custom name
    that is not empty, else the builtin one) has an entry, and the node's
    parameter blob has the size the entry declares. *)
Definition Init_node_ok (context : TfLiteContext) (node_idx : Z) : bool :=
  match (GetNodeAndRegistration context node_idx).2 with
  | Some (node, reg) =>
      if bool_decide (default EmptyString (custom_name reg) = EmptyString) then
        match SupportedBuiltinOps !! builtin_code reg with
        | Some it => param_data_ok (builtin_data node) (GetParamSize it)
        | None => false
        end
      else
        match SupportedBuiltinCustomOps !! default EmptyString (custom_name reg) with
        | Some it => param_data_ok (user_data node) (GetParamSize it)
        | None => false
        end
  | None => false
  end.

(** The tensor at [idx] is not compile-time constant: its memory is not
    read-only mapped. *)
Definition not_constant (context : TfLiteContext) (idx : Z) : bool :=
  match at_Z (tensors context) idx with
  | Some tensor => bool_decide (allocation_type tensor <> kTfLiteMmapRo)
  | None => false
  end.

(** The index [tensor_idx] names a slot of [table] that is still null, so
    that the guarded creation creates a tensor for it. *)
Definition needs_creation (table : list (option Handle)) (tensor_idx : Z) : bool :=
  bool_decide (-1 <> tensor_idx) && bool_decide (at_Z table tensor_idx = Some None).

(** A run of guarded creations on one table, each with its own choice of
    storage class: what the loops of the build over the subgraph inputs,
    the subgraph outputs and the operands of an operation come to, one
    after the other. *)
Definition create_all (context : TfLiteContext)
    (touches : list ((TfLiteTensor -> TensorAttribute) * Z))
    (st : Graph * list (option Handle)) : Outcome (Graph * list (option Handle)) :=
  for_each (fun touch => create_if_null context touch.1 touch.2) touches st.

(** ** Node registration, buffer hooks and the delegate handle *)

(** [Delegate::Prepare]. *)
Definition Delegate_Prepare (op_data : OpData) (context : TfLiteContext)
    (node : TfLiteNode) : Outcome TfLiteStatus :=
  _ ← TFLITE_LOG INFO [LStr "Delegate::Prepare node:"; LPtr];
  mret kTfLiteOk.

(** [CopyFromBufferHandle]: the status and the tensor afterwards. *)
Definition CopyFromBufferHandle (context : TfLiteContext) (buffer_handle : Z)
    (tensor : TfLiteTensor) : Outcome (TfLiteStatus * TfLiteTensor) :=
  _ ← TFLITE_LOG INFO
        [LStr "CopyFromBufferHandle handle:"; LInt buffer_handle;
         LStr " tensor:"; LStr (name tensor)];
  mret (kTfLiteOk, tensor).

(** [FreeBufferHandle]: the handle afterwards. *)
Definition FreeBufferHandle (context : TfLiteContext) (handle : Z) : Outcome Z :=
  _ ← TFLITE_LOG INFO [LStr "FreeBufferHandle handle:"; LInt handle];
  mret handle.

(** The [init] function of [DelegateNodeRegistration]: a new [Delegate],
    [Init] on it, and the delegate stored in the [OpData] that becomes the
    node's [user_data] (here the pair of the two). *)
Definition Registration_init (context : TfLiteContext)
    (params : TfLiteDelegateParams) : Outcome (OpData * Delegate) :=
  '(delegate, op_data) ← Init Delegate_new context params;
  mret (op_data, delegate).

(** The [prepare] function of [DelegateNodeRegistration]. *)
Definition Registration_prepare (user_data : OpData * Delegate)
    (context : TfLiteContext) (node : TfLiteNode) : Outcome TfLiteStatus :=
  Delegate_Prepare user_data.1 context node.

(** The [invoke] function of [DelegateNodeRegistration]: the status, the
    node's [user_data], the context and the device afterwards. *)
Definition Registration_invoke (user_data : OpData * Delegate)
    (context : TfLiteContext) (device : Device) (node : TfLiteNode)
    : Outcome (TfLiteStatus * (OpData * Delegate) * TfLiteContext * Device) :=
  '(status, m) ←
    Invoke user_data.1
      {| m_delegate := user_data.2; m_context := context; m_device := device |}
      node;
  mret (status, (user_data.1, m_delegate m), m_context m, m_device m).

(** The functions a [TfLiteDelegate] points to. *)
Inductive DelegateHook :=
| hook_PrepareDelegate
| hook_CopyFromBufferHandle
| hook_FreeBufferHandle.

(** [TfLiteDelegate]; [None] is a null pointer. *)
Record TfLiteDelegate := {
  data_ : option Z;
  Prepare : option DelegateHook;
  CopyFromBufferHandle_ : option DelegateHook;
  CopyToBufferHandle_ : option DelegateHook;
  FreeBufferHandle_ : option DelegateHook;
  flags : Z
}.

Definition kTfLiteDelegateFlagsNone : Z := 0.

(** The [TfLiteDelegate] objects that are alive, by address, the address
    that the next [new] returns, and the function-local [static] pointer
    of [VxDelegate] ([None] until its initialiser has run). *)
Record DelegateStore := {
  live : gmap nat TfLiteDelegate;
  next_address : nat;
  static_delegate : option nat
}.

(** [Delegate::Create]: the object after [memset] and the assignments,
    at a new address. *)
Definition Delegate_Create (store : DelegateStore) : nat * DelegateStore :=
  let delegate :=
    {| data_ := None;
       Prepare := Some hook_PrepareDelegate;
       CopyFromBufferHandle_ := Some hook_CopyFromBufferHandle;
       CopyToBufferHandle_ := None;
       FreeBufferHandle_ := Some hook_FreeBufferHandle;
       flags := kTfLiteDelegateFlagsNone |} in
  (next_address store,
   {| live := <[next_address store := delegate]> (live store);
      next_address := S (next_address store);
      static_delegate := static_delegate store |}).

(** [VxDelegate]: the [static] is initialised by the first call. *)
Definition VxDelegate (store : DelegateStore) : nat * DelegateStore :=
  match static_delegate store with
  | Some delegate => (delegate, store)
  | None =>
      let '(delegate, store) := Delegate_Create store in
      (delegate,
       {| live := live store; next_address := next_address store;
          static_delegate := Some delegate |})
  end.

(** [VxDelegateCreate]; the options are not read. *)
Definition VxDelegateCreate {Options : Type} (options : Options)
    (store : DelegateStore) : nat * DelegateStore :=
  VxDelegate store.

(** [VxDelegateDelete] on the pointer [delegate] ([None]: null).  [delete]
    on an address that holds no object is undefined; the assignment of
    [nullptr] is to the parameter. *)
Definition VxDelegateDelete (delegate : option nat) (store : DelegateStore)
    : Outcome DelegateStore :=
  match delegate with
  | None => mret store
  | Some address =>
      _ ← defined (live store !! address);
      mret {| live := delete address (live store);
              next_address := next_address store;
              static_delegate := static_delegate store |}
  end.

(** The store of a process that has created no delegate. *)
Definition DelegateStore_start : DelegateStore :=
  {| live := ∅; next_address := 0; static_delegate := None |}.

(** ** Further well-formedness predicates *)

(** The element types that [TfLiteDtypeToVsiDtype] knows. *)
Definition dtype_known (type : TfLiteType) : bool :=
  match type with
  | kTfLiteFloat32 | kTfLiteInt32 | kTfLiteUInt8 | kTfLiteInt16 | kTfLiteInt8
  | kTfLiteBool | kTfLiteFloat16 => true
  | _ => false
  end.

(** The number of elements of a shape. *)
Definition element_count (shape : list Z) : Z := foldr Z.mul 1 shape.

(** The record of [operations_] that [Init] makes of the node [node_idx]
    in an empty slot has the node's inputs and outputs, the builtin code of
    its registration and its custom name (empty when there is none). *)
Definition extracted_from (context : TfLiteContext) (node_idx : Z)
    (operation : Op.OperationDataType) : Prop :=
  exists node reg,
    (GetNodeAndRegistration context node_idx).2 = Some (node, reg) /\
    Op.inputs operation = inputs node /\
    Op.outputs operation = outputs node /\
    Op.builtin_code operation = builtin_code reg /\
    Op.custom_name operation = default EmptyString (custom_name reg).

(** [context'] is [context] but for the data of the tensors whose indexes
    are in [written]: the tensor table has the same size, every tensor is
    the one of [context] with some [data.raw], which is the one of
    [context] at an index outside [written], and the host calls are the
    same. *)
Definition same_but_data (written : list Z) (context context' : TfLiteContext)
    : Prop :=
  GetExecutionPlan context' = GetExecutionPlan context /\
  GetNodeAndRegistration context' = GetNodeAndRegistration context /\
  ReplaceNodeSubsetsWithDelegateKernels context'
    = ReplaceNodeSubsetsWithDelegateKernels context /\
  length (tensors context') = length (tensors context) /\
  forall i tensor, tensors context !! i = Some tensor ->
    exists data,
      tensors context' !! i = Some (set_data_raw tensor data) /\
      (Z.of_nat i ∉ written -> data = data_raw tensor).

(** The index [idx] is one of a host tensor whose slot in [table] holds a
    tensor that the layout inference of [d] has mapped. *)
Definition copy_ready (d : Delegate) (table : list (option Handle))
    (context : TfLiteContext) (idx : Z) : Prop :=
  0 <= idx < Z.of_nat (length (tensors context)) /\
  exists h h', at_Z table idx = Some (Some h) /\ (layout_infered_ d).2 !! h = Some h'.

(** Every index of [idxs] other than [-1] has a slot in [table] that
    holds a tensor. *)
Definition resolved (table : list (option Handle)) (idxs : list Z) : Prop :=
  forall idx, idx ∈ idxs -> idx <> -1 -> exists h, at_Z table idx = Some (Some h).

(** An index the guarded creation can handle on a fresh table: [-1], or
    the index of a host tensor whose quantization metadata is well formed. *)
Definition operand_ok (context : TfLiteContext) (idx : Z) : bool :=
  bool_decide (idx = -1)
  || match at_Z (tensors context) idx with
     | Some tensor => quantization_ok tensor
     | None => false
     end.



(** * Properties *)

Set Default Proof Using "Type".

(** [tauto] on the goal and the hypotheses, without the variables of the
    section. *)
Ltac tauto_goal :=
  try clear CopyDataFromTensor; try clear CopyDataToTensor; try clear Run;
  try clear Compile; try clear LayoutInference; try clear Device;
  try clear SupportedBuiltinCustomOps; try clear SupportedBuiltinOps;
  try clear TransposeParams_perm_size; try clear Transpose;
  try clear ConvertAxis;
  tauto.


(** ** The outcome monad *)

Lemma bind_Done_inv {A B} (m : Outcome A) (f : A -> Outcome B) b l :
  m ≫= f = Done b l ->
  exists a l1 l2, m = Done a l1 /\ f a = Done b l2 /\ l = l1 ++ l2.
Proof.
  unfold mbind, outcome_mbind, outcome_bind.
  destruct m as [a l1| |]; try discriminate.
  destruct (f a) as [b' l2| |] eqn:E; try discriminate.
  intros [= <- <-]. by eexists _, _, _.
Qed.

Lemma bind_Done {A B} (m : Outcome A) (f : A -> Outcome B) a l1 b l2 :
  m = Done a l1 -> f a = Done b l2 -> m ≫= f = Done b (l1 ++ l2).
Proof.
  intros -> E. unfold mbind, outcome_mbind, outcome_bind. by rewrite E.
Qed.

Lemma bind_Done_nil {A B} (m : Outcome A) (f : A -> Outcome B) a b l :
  m = Done a [] -> f a = Done b l -> m ≫= f = Done b l.
Proof. intros Hm Hf. by rewrite (bind_Done _ _ _ _ _ _ Hm Hf). Qed.

Lemma bind_Aborted {A B} (m : Outcome A) (f : A -> Outcome B) a l1 l2 :
  m = Done a l1 -> f a = Aborted l2 -> m ≫= f = Aborted (l1 ++ l2).
Proof.
  intros -> E. unfold mbind, outcome_mbind, outcome_bind. by rewrite E.
Qed.

Lemma defined_Done_inv {A} (o : option A) a l :
  defined o = Done a l -> o = Some a /\ l = [].
Proof. destruct o; simpl; [intros [= <- <-]; done | discriminate]. Qed.

Lemma assert_Done_inv b u l : assert b = Done u l -> b = true /\ l = [].
Proof. destruct b; simpl; [intros [= <- <-]; done | discriminate]. Qed.

Lemma store_at_Done_inv {A} (v : list A) i x v' l :
  store_at v i x = Done v' l -> (i < length v)%nat /\ v' = <[i:=x]> v /\ l = [].
Proof.
  unfold store_at. case_decide; [|discriminate]. by intros [= <- <-].
Qed.

(** Takes a hypothesis [m ≫= f = Done b l] apart. *)
Tactic Notation "inv_bind" hyp(H) "as" simple_intropattern(pat) :=
  apply bind_Done_inv in H as pat.

(** ** Tensor bridge *)

Lemma to_uint32_id z : 0 <= z < 2 ^ 32 -> to_uint32 z = z.
Proof. intros H. unfold to_uint32. by apply Z.mod_small. Qed.

(** On a shape whose dimensions are not negative (each an [int]),
    [TfLiteTensorDims] is the host shape itself. *)
Lemma TfLiteTensorDims_id tensor :
  Forall (fun d => 0 <= d <= INT_MAX) (dims tensor) ->
  TfLiteTensorDims tensor = dims tensor.
Proof.
  unfold TfLiteTensorDims, INT_MAX. induction 1 as [|d ds Hd _ IH]; simpl; [done|].
  rewrite IH, to_uint32_id; [done | lia].
Qed.

Lemma length_TfLiteTensorDims tensor :
  length (TfLiteTensorDims tensor) = length (dims tensor).
Proof. unfold TfLiteTensorDims. apply length_map. Qed.

Lemma TfLiteDtypeToVsiDtype_Done type :
  exists datatype log, TfLiteDtypeToVsiDtype type = Done datatype log.
Proof. destruct type; simpl; eauto. Qed.

(** The gather loop on positions [k .. k+n-1] of a permutation whose
    entries are in range. *)
Lemma gather_loop dims perm n : forall k w,
  (k + n <= length perm)%nat -> (k + n <= length w)%nat ->
  Forall (fun p => (p < length dims)%nat) perm ->
  for_each (gather_dim dims perm) (seq k n) w =
  Done (take k w ++ ((fun p => nth p dims 0) <$> take n (drop k perm))
          ++ drop (k + n) w) [].
Proof.
  induction n as [|n IH]; intros k w Hp Hw Hin.
  - simpl. rewrite Nat.add_0_r, take_drop. reflexivity.
  - destruct (lookup_lt_is_Some_2 perm k) as [p Ep]; [lia|].
    assert (p < length dims)%nat as Hlt.
    { eapply Forall_lookup_1 in Hin; eauto. }
    destruct (lookup_lt_is_Some_2 dims p Hlt) as [d Ed].
    assert (gather_dim dims perm k w = Done (<[k:=d]> w) []) as Hstep.
    { unfold gather_dim. rewrite Ep. simpl. rewrite Ed. simpl.
      unfold store_at. by rewrite decide_True by lia. }
    cbn [for_each seq]. erewrite bind_Done; [|exact Hstep|apply IH];
      rewrite ?length_insert; try lia; try done.
    simpl. f_equal.
    rewrite (take_S_r _ _ d) by (apply list_lookup_insert_eq; lia).
    rewrite take_insert_ge by lia.
    rewrite drop_insert_lt by lia.
    rewrite (drop_S perm p k Ep). simpl.
    rewrite (nth_lookup_Some _ _ _ _ Ed).
    rewrite <- app_assoc. simpl.
    by replace (k + S n)%nat with (S (k + n)) by lia.
Qed.

Lemma gather_all dims perm w :
  length w = length perm ->
  Forall (fun p => (p < length dims)%nat) perm ->
  for_each (gather_dim dims perm) (seq 0 (length perm)) w =
  Done ((fun p => nth p dims 0) <$> perm) [].
Proof.
  intros Hw Hin. rewrite gather_loop by (done || lia).
  simpl. rewrite drop_0, firstn_all, drop_ge by lia. by rewrite app_nil_r.
Qed.

Lemma CreateTensorSpec_shape_Done tensor perm :
  perm_ok tensor perm = true ->
  let dims := TfLiteTensorDims tensor in
  let whcn_shape := replicate (length dims) 0 in
  let dims := if decide (length dims = 0%nat) then dims ++ [1] else dims in
  (if decide (0 < length perm)%nat then
     _ ← assert (bool_decide (length perm = length dims));
     whcn_shape ← for_each (gather_dim dims perm) (seq 0 (length perm)) whcn_shape;
     mret (reverse whcn_shape)
   else mret (reverse dims))
  = Done (whcn_shape_of (TfLiteTensorDims tensor) perm) [].
Proof.
  intros Hperm. cbv zeta.
  destruct perm as [|p perm].
  - destruct (decide (0 < length (@nil nat))%nat) as [H|_]; [simpl in H; lia|].
    unfold whcn_shape_of.
    by destruct (TfLiteTensorDims tensor).
  - apply andb_prop in Hperm as [Hlen Hin].
    apply bool_decide_eq_true in Hlen.
    rewrite <- length_TfLiteTensorDims in Hlen.
    destruct (decide (0 < length (p :: perm))%nat) as [_|H]; [|simpl in H; lia].
    destruct (decide (length (TfLiteTensorDims tensor) = 0%nat)) as [H|_];
      [rewrite <- Hlen in H; discriminate|].
    rewrite bool_decide_eq_true_2 by done.
    eapply bind_Done_nil; [done|].
    eapply bind_Done_nil; [|done].
    apply gather_all.
    + by rewrite length_replicate.
    + rewrite length_TfLiteTensorDims. apply Forall_forall. intros q Hq.
      rewrite forallb_forall in Hin. apply list_elem_of_In in Hq.
      specialize (Hin q Hq). by apply bool_decide_eq_true in Hin.
Qed.

Lemma vx_rank_eq tensor :
  let dims := TfLiteTensorDims tensor in
  Z.of_nat (length (if decide (length dims = 0%nat) then dims ++ [1] else dims))
  = vx_rank tensor.
Proof.
  unfold vx_rank, TfLiteTensorDims. destruct (dims tensor) as [|d ds]; [done|].
  cbv zeta. rewrite decide_False by (simpl; lia). by rewrite length_map.
Qed.

Lemma CreateTensorSpec_Done tensor perm attr :
  quantization_ok tensor = true ->
  perm_ok tensor perm = true ->
  exists datatype log,
    CreateTensorSpec tensor perm attr =
    Done {| datatype_ := datatype;
            shape_ := whcn_shape_of (TfLiteTensorDims tensor) perm;
            attr_ := attr;
            quantization_ := quantization_of tensor |} log.
Proof.
  intros Hq Hperm. unfold CreateTensorSpec.
  destruct (TfLiteDtypeToVsiDtype_Done (type tensor)) as (datatype & log & ->).
  exists datatype, log. cbv zeta.
  pose proof (CreateTensorSpec_shape_Done tensor perm Hperm) as Hs.
  cbv zeta in Hs.
  unfold quantization_ok in Hq. unfold quantization_of.
  pose proof (vx_rank_eq tensor) as Hr. cbv zeta in Hr. rewrite Hr.
  rewrite <- (app_nil_r log) at 2.
  eapply bind_Done; [done|]. eapply bind_Done_nil; [exact Hs|].
  destruct (q_type (quantization tensor)); [done|].
  destruct (q_params (quantization tensor)) as [params|]; [|done].
  simpl.
  by destruct (scale params) as [|s [|s' ss]], (zero_point params) as [|z zs].
Qed.

(** Conversely, the gather loop completes only on positions whose entries
    are axes of [dims] and are inside the vector it writes. *)
Lemma gather_loop_Done_inv dims perm n : forall k w w' log,
  for_each (gather_dim dims perm) (seq k n) w = Done w' log ->
  length w' = length w /\
  forall i, (k <= i < k + n)%nat ->
    (i < length w)%nat /\
    exists p, perm !! i = Some p /\ (p < length dims)%nat.
Proof.
  induction n as [|n IH]; intros k w w' log H.
  - injection H as <- <-. split; [done | lia].
  - cbn [for_each seq] in H. inv_bind H as (w1 & l1 & l2 & Estep & H & _).
    unfold gather_dim in Estep.
    inv_bind Estep as (p & l3 & l4 & Ep & Estep & _).
    inv_bind Estep as (d & l5 & l6 & Ed & Estep & _).
    apply defined_Done_inv in Ep as [Ep _]. apply defined_Done_inv in Ed as [Ed _].
    apply store_at_Done_inv in Estep as (Hlt & -> & _).
    apply IH in H as [Hlen Hrest]. rewrite length_insert in Hlen, Hrest.
    split; [done|]. intros i Hi.
    destruct (decide (i = k)) as [->|Hne]; [|apply Hrest; lia].
    split; [done|]. exists p. split; [done|]. by eapply lookup_lt_Some.
Qed.

(** [CreateTensorSpec] returns a spec only on the arguments accepted by
    [perm_ok] and [quantization_ok]. *)
Lemma CreateTensorSpec_Done_inv tensor perm attr spec log :
  CreateTensorSpec tensor perm attr = Done spec log ->
  perm_ok tensor perm = true /\ quantization_ok tensor = true.
Proof.
  unfold CreateTensorSpec. intros H.
  inv_bind H as (datatype & l1 & l2 & _ & H & _). cbv zeta in H.
  inv_bind H as (whcn_shape & l3 & l4 & Eshape & H & _). split.
  - destruct perm as [|p perm]; [done|].
    rewrite decide_True in Eshape by (simpl; lia).
    inv_bind Eshape as (u & l5 & l6 & Elen & Eshape & _).
    inv_bind Eshape as (w & l7 & l8 & Eloop & _ & _).
    apply assert_Done_inv in Elen as [Elen%bool_decide_eq_true _].
    apply gather_loop_Done_inv in Eloop as [_ Hloop].
    rewrite length_replicate in Hloop.
    assert (TfLiteTensorDims tensor <> []) as Hne.
    { destruct (Hloop 0%nat) as [Hlt _]; [simpl; lia|].
      intros E. rewrite E in Hlt. simpl in Hlt. lia. }
    rewrite decide_False in Elen, Hloop by (by destruct (TfLiteTensorDims tensor)).
    rewrite length_TfLiteTensorDims in Elen, Hloop.
    unfold perm_ok. rewrite bool_decide_eq_true_2 by done.
    apply forallb_forall. intros q Hq%list_elem_of_In.
    apply list_elem_of_lookup in Hq as [i Ei].
    destruct (Hloop i) as (_ & q' & Ei' & Hlt);
      [pose proof (lookup_lt_Some _ _ _ Ei); lia|].
    rewrite Ei in Ei'. injection Ei' as <-. by apply bool_decide_eq_true.
  - unfold quantization_ok.
    destruct (q_type (quantization tensor)); [done|].
    inv_bind H as (params & l5 & l6 & Ep & H & _).
    apply defined_Done_inv in Ep as [-> _].
    inv_bind H as (quant & l7 & l8 & Eq & _ & _).
    case_decide as Hn; [by rewrite bool_decide_eq_true_2|].
    inv_bind Eq as (s0 & l9 & l10 & Es & Eq & _).
    inv_bind Eq as (z0 & l11 & l12 & Ez & _ & _).
    apply defined_Done_inv in Es as [Es _]. apply defined_Done_inv in Ez as [Ez _].
    destruct (scale params), (zero_point params); try done.
    by rewrite orb_true_r.
Qed.

(** C1 (as amended).  When [CreateTensorSpec] is given no permutation, the
    shape of the spec is the host shape reversed, where a host shape of
    rank 0 counts as the shape [[1]]; when it is given a permutation of the
    length of the host shape whose entries are axes of it, the shape is the
    host dimensions gathered through the permutation and then reversed. *)
Theorem CreateTensorSpec_shape tensor perm attr :
  quantization_ok tensor = true ->
  perm_ok tensor perm = true ->
  exists spec log,
    CreateTensorSpec tensor perm attr = Done spec log /\
    shape_ spec =
      match perm with
      | [] =>
          match TfLiteTensorDims tensor with
          | [] => [1]
          | host_shape => reverse host_shape
          end
      | _ => reverse ((fun p => nth p (TfLiteTensorDims tensor) 0) <$> perm)
      end.
Proof.
  intros Hq Hperm.
  destruct (CreateTensorSpec_Done tensor perm attr Hq Hperm) as (datatype & log & E).
  eexists _, log. split; [exact E|]. simpl. unfold whcn_shape_of.
  destruct perm; [|done]. by destruct (TfLiteTensorDims tensor).
Qed.

(** C9.  For a host tensor of rank 0, [CreateTensorSpec] without a
    permutation yields a spec of shape [[1]]: rank 1, size 1.  (With a
    permutation it yields no spec at all: the call is undefined.) *)
Theorem CreateTensorSpec_scalar tensor perm attr :
  dims tensor = [] ->
  quantization_ok tensor = true ->
  match perm with
  | [] =>
      exists spec log,
        CreateTensorSpec tensor perm attr = Done spec log /\ shape_ spec = [1]
  | _ => CreateTensorSpec tensor perm attr = Undefined
  end.
Proof.
  intros Hdims Hq. destruct perm as [|p perm].
  - destruct (CreateTensorSpec_Done tensor [] attr Hq eq_refl) as (datatype & log & E).
    eexists _, log. split; [exact E|]. simpl.
    unfold whcn_shape_of, TfLiteTensorDims. by rewrite Hdims.
  - unfold CreateTensorSpec, TfLiteTensorDims. rewrite Hdims.
    destruct (TfLiteDtypeToVsiDtype_Done (type tensor)) as (datatype & log & ->).
    simpl. destruct perm as [|p' perm]; [|done].
    simpl. unfold gather_dim. simpl. by destruct p as [|[|p]].
Qed.

(** ** Index resolution *)

Lemma wrapped_index_range size index :
  0 < size -> 0 <= wrapped_index size index < size.
Proof. intros H. unfold wrapped_index. by apply Z.mod_pos_bound. Qed.

Lemma wrapped_index_mod size index :
  0 < size < 2 ^ 63 -> - size <= index < 2 ^ 31 ->
  wrapped_index size index = (index + size) mod size.
Proof.
  intros Hs Hi. unfold wrapped_index, to_size_t, size_t_bits.
  rewrite Zplus_mod_idemp_l. f_equal. apply Z.mod_small. lia.
Qed.

Lemma wrapped_index_placeholder size :
  0 < size < 2 ^ 63 -> wrapped_index size (-1) = size - 1.
Proof.
  intros Hs. rewrite wrapped_index_mod by lia.
  replace (-1 + size) with (size - 1) by lia. apply Z.mod_small. lia.
Qed.

Lemma wrapped_index_own size index :
  0 <= index < size -> size < 2 ^ 63 -> wrapped_index size index = index.
Proof.
  intros Hi Hs. unfold wrapped_index, to_size_t, size_t_bits.
  rewrite Zplus_mod_idemp_l, (Z.mod_small (index + size)) by lia.
  replace (index + size) with (index + 1 * size) by lia.
  rewrite Z.mod_add by lia. apply Z.mod_small. lia.
Qed.

Lemma at_Z_lookup {A} (v : list A) (i : Z) :
  0 <= i -> at_Z v i = v !! Z.to_nat i.
Proof. intros H. unfold at_Z. by rewrite decide_True. Qed.

(** On a table that is not empty [MapIndexesToTensors] resolves every
    index of the list, in order, to the table slot at the index wrapped by
    the table size: the index [-1] to the last slot and an index that is
    in range to its own slot.  For an index from the negated size on, the
    wrapped index is the remainder of index plus size by the size. *)
Theorem MapIndexesToTensors_wraps (tensors : list (option Handle)) (indexes : list Z) :
  let size := Z.of_nat (length tensors) in
  0 < size < 2 ^ 63 ->
  exists out,
    MapIndexesToTensors tensors indexes = Done out [] /\
    Forall2
      (fun index t =>
         tensors !! Z.to_nat (wrapped_index size index) = Some t /\
         (index = -1 -> last tensors = Some t) /\
         (0 <= index < size -> tensors !! Z.to_nat index = Some t) /\
         (- size <= index < 2 ^ 31 ->
          wrapped_index size index = (index + size) mod size))
      indexes out.
Proof.
  intros size Hs. unfold MapIndexesToTensors. fold size.
  induction indexes as [|index indexes (out & E & IH)].
  - exists []. split; [done | constructor].
  - pose proof (wrapped_index_range size index ltac:(lia)) as Hr.
    destruct (lookup_lt_is_Some_2 tensors (Z.to_nat (wrapped_index size index)))
      as [t Et]; [lia|].
    exists (t :: out). split.
    + cbn [transform]. eapply bind_Done_nil.
      * eapply bind_Done_nil; [by rewrite bool_decide_eq_true_2 by lia|].
        rewrite at_Z_lookup, Et by lia. done.
      * eapply bind_Done_nil; [exact E | done].
    + constructor; [|exact IH]. split; [exact Et|]. split; [|split].
      * intros ->. rewrite wrapped_index_placeholder in Et by lia.
        rewrite last_lookup. rewrite <- Et. f_equal. lia.
      * intros Hi. by rewrite wrapped_index_own in Et by lia.
      * intros Hi. apply wrapped_index_mod; lia.
Qed.

(** ** Legality filter *)

(** C7.  [SupportedOp] looks the operator up in the custom registry by
    name, when the registration has a custom name, and leaves the decision
    to the entry found there; otherwise it looks the builtin code up in the
    builtin registry and leaves the decision to the entry found there; when
    neither lookup finds an entry it returns [false] and writes one line at
    severity [ERROR]. *)
Theorem SupportedOp_registries context node registration :
  SupportedOp context node registration =
  match name ← custom_name registration; SupportedBuiltinCustomOps !! name with
  | Some it => Done (IsSupported it context node registration) []
  | None =>
      match SupportedBuiltinOps !! builtin_code registration with
      | Some it => Done (IsSupported it context node registration) []
      | None =>
          Done false
            [(ERROR,
              [LStr "Fallback unsupported op "; LInt (builtin_code registration);
               LStr " to TfLite"])]
      end
  end.
Proof.
  unfold SupportedOp, SupportedOp_builtin.
  destruct (custom_name registration) as [name|]; simpl.
  - destruct (SupportedBuiltinCustomOps !! name); [done|].
    by destruct (SupportedBuiltinOps !! builtin_code registration).
  - by destruct (SupportedBuiltinOps !! builtin_code registration).
Qed.

Lemma SupportedOp_Done context node registration :
  exists supported log, SupportedOp context node registration = Done supported log.
Proof.
  unfold SupportedOp, SupportedOp_builtin.
  destruct (custom_name registration) as [name|];
    [destruct (SupportedBuiltinCustomOps !! name); [by eexists _, _|]|];
    destruct (SupportedBuiltinOps !! builtin_code registration); by eexists _, _.
Qed.

Lemma to_int32_id z : - 2 ^ 31 <= z < 2 ^ 31 -> to_int32 z = z.
Proof. intros H. unfold to_int32. rewrite Z.mod_small; lia. Qed.

Lemma to_size_t_id z : 0 <= z < 2 ^ 64 -> to_size_t z = z.
Proof. intros H. unfold to_size_t, size_t_bits. by apply Z.mod_small. Qed.

(** The loop of [PrepareDelegate] on a plan whose nodes the host knows:
    it appends the supported nodes, in order. *)
Lemma PrepareDelegate_loop_filter context plan : forall supported_nodes,
  Forall (fun node_index =>
            exists out, GetNodeAndRegistration context node_index
                        = (kTfLiteOk, Some out)) plan ->
  exists log,
    PrepareDelegate_loop context plan supported_nodes =
    Done (inr (supported_nodes
               ++ filter (fun i => classified_supported context i = true) plan)) log.
Proof.
  induction plan as [|node_index plan IH]; intros supported_nodes Hplan.
  - exists []. simpl. by rewrite app_nil_r.
  - apply Forall_cons in Hplan as [[[node registration] Eout] Hplan].
    destruct (SupportedOp_Done context node registration) as (supported & log & Es).
    destruct (IH (if supported then supported_nodes ++ [node_index]
                  else supported_nodes) Hplan) as (log' & E).
    exists (log ++ log'). cbn [PrepareDelegate_loop]. rewrite Eout.
    eapply bind_Done_nil; [done|]. cbv beta iota.
    eapply bind_Done; [exact Es|]. rewrite E. do 2 f_equal.
    assert (classified_supported context node_index = supported) as Hc.
    { unfold classified_supported. rewrite Eout. simpl. by rewrite Es. }
    rewrite filter_cons. destruct supported.
    + rewrite decide_True by done. by rewrite <- app_assoc.
    + rewrite decide_False; [done | by rewrite Hc].
Qed.

(** Conversely, whenever the loop of [PrepareDelegate] runs through, it has
    appended the supported nodes of the plan. *)
Lemma PrepareDelegate_loop_Done_inv context plan : forall supported_nodes r log,
  PrepareDelegate_loop context plan supported_nodes = Done (inr r) log ->
  r = supported_nodes
      ++ filter (fun i => classified_supported context i = true) plan.
Proof.
  induction plan as [|node_index plan IH]; intros acc r log H.
  - injection H as <- <-. by rewrite app_nil_r.
  - cbn [PrepareDelegate_loop] in H.
    destruct (GetNodeAndRegistration context node_index) as [status out] eqn:Eout.
    destruct status; [|by injection H|by injection H].
    inv_bind H as ([node registration] & l1 & l2 & Eo & H & _).
    apply defined_Done_inv in Eo as [-> _].
    inv_bind H as (supported & l3 & l4 & Es & H & _).
    apply IH in H as ->.
    assert (classified_supported context node_index = supported) as Hc.
    { unfold classified_supported. rewrite Eout. simpl. by rewrite Es. }
    rewrite filter_cons. destruct supported.
    + rewrite decide_True by done. by rewrite <- app_assoc.
    + rewrite decide_False; [done | by rewrite Hc].
Qed.

(** Whatever array [PrepareDelegate] hands to the host, it is the number of
    accepted nodes, as an [int], followed by the accepted nodes. *)
Lemma PrepareDelegate_Done_inv context status handed log :
  PrepareDelegate context = Done (status, Some handed) log ->
  exists plan,
    GetExecutionPlan context = (kTfLiteOk, Some plan) /\
    let accepted := filter (fun i => classified_supported context i = true) plan in
    handed = to_int32 (to_size_t (Z.of_nat (length accepted))) :: accepted.
Proof.
  unfold PrepareDelegate. intros H.
  destruct (GetExecutionPlan context) as [status' plan].
  destruct status'; [|by injection H|by injection H].
  inv_bind H as (plan' & l1 & l2 & Ep & H & _).
  apply defined_Done_inv in Ep as [-> _]. cbv zeta in H.
  inv_bind H as ([status''|supported_nodes] & l3 & l4 & El & H & _);
    [by injection H|].
  apply PrepareDelegate_loop_Done_inv in El as ->.
  inv_bind H as (handed' & l5 & l6 & Es & H & _).
  apply store_at_Done_inv in Es as (_ & -> & _). injection H as _ <- _.
  exists plan'. split; [done|]. cbn [app length insert list_insert].
  do 3 f_equal. lia.
Qed.

(** C2.  On a plan that the host hands over and whose nodes it knows,
    [PrepareDelegate] calls the subgraph replacement with an array that
    holds the number of accepted nodes followed by the accepted nodes: the
    nodes of the plan that [SupportedOp] classifies as supported, in the
    order of the plan. *)
Theorem PrepareDelegate_accepted context plan :
  GetExecutionPlan context = (kTfLiteOk, Some plan) ->
  Forall (fun node_index =>
            exists out, GetNodeAndRegistration context node_index
                        = (kTfLiteOk, Some out)) plan ->
  Z.of_nat (length plan) <= INT_MAX ->
  let accepted := filter (fun i => classified_supported context i = true) plan in
  let handed := Z.of_nat (length accepted) :: accepted in
  exists log,
    PrepareDelegate context =
      Done (ReplaceNodeSubsetsWithDelegateKernels context handed, Some handed) log /\
    as_TfLiteIntArray handed = Some (Z.of_nat (length accepted), accepted).
Proof.
  intros Eplan Hplan Hlen accepted handed.
  destruct (PrepareDelegate_loop_filter context plan [0] Hplan) as (log & E).
  exists log. split; [|done].
  unfold PrepareDelegate. rewrite Eplan.
  eapply bind_Done_nil; [done|]. cbv zeta.
  rewrite <- (app_nil_r log). eapply bind_Done; [exact E|].
  fold accepted. cbn [app length].
  assert (length accepted <= length plan)%nat as Hle by apply length_filter.
  unfold INT_MAX in Hlen.
  rewrite to_size_t_id, to_int32_id by lia.
  replace (Z.of_nat (S (length accepted)) - 1) with (Z.of_nat (length accepted))
    by lia.
  done.
Qed.

(** ** Subgraph extraction *)

Lemma at_Z_is_Some {A} (v : list A) (i : Z) :
  0 <= i < Z.of_nat (length v) -> exists x, at_Z v i = Some x.
Proof.
  intros H. rewrite at_Z_lookup by lia. apply lookup_lt_is_Some_2. lia.
Qed.

Lemma Init_inputs context input_tensors : forall subgraph_inputs,
  Forall (fun idx => 0 <= idx < Z.of_nat (length (tensors context))) input_tensors ->
  for_each (Init_input context) input_tensors subgraph_inputs =
  Done (subgraph_inputs
        ++ filter (fun idx => not_constant context idx = true) input_tensors) [].
Proof.
  induction input_tensors as [|idx l IH]; intros acc Hin.
  - simpl. by rewrite app_nil_r.
  - apply Forall_cons in Hin as [Hidx Hin].
    destruct (at_Z_is_Some _ _ Hidx) as [tensor Et].
    assert (not_constant context idx
            = bool_decide (allocation_type tensor <> kTfLiteMmapRo)) as Hc.
    { unfold not_constant. by rewrite Et. }
    assert (Init_input context idx acc
            = Done (if not_constant context idx then acc ++ [idx] else acc) [])
      as Hstep.
    { unfold Init_input. rewrite Hc, Et. simpl.
      destruct (decide (allocation_type tensor <> kTfLiteMmapRo)).
      - by rewrite bool_decide_eq_true_2.
      - by rewrite bool_decide_eq_false_2. }
    cbn [for_each]. eapply bind_Done_nil; [exact Hstep|].
    rewrite IH, filter_cons by done.
    destruct (not_constant context idx).
    + rewrite decide_True by done. by rewrite <- app_assoc.
    + by rewrite decide_False by done.
Qed.

Lemma store_at_Done {A} (v : list A) i x :
  (i < length v)%nat -> store_at v i x = Done (<[i:=x]> v) [].
Proof. intros H. unfold store_at. by rewrite decide_True. Qed.

Lemma memcpy_n_Done src n :
  (n <= length src)%nat -> memcpy_n src n = Done (take n src) [].
Proof. intros H. unfold memcpy_n. by rewrite decide_True. Qed.

(** One step of the node loop of [Init] on an operation slot that is still
    empty: the slot is filled and the other slots stay as they are. *)
Lemma Init_node_Done context params i node_idx operations_ operation subgraph_states :
  nodes_to_replace params !! i = Some node_idx ->
  operations_ !! i = Some operation ->
  Op.custom_name operation = EmptyString ->
  Init_node_ok context node_idx = true ->
  exists operation' subgraph_states',
    Init_node context params i (operations_, subgraph_states) =
    Done (<[i:=operation']> operations_, subgraph_states') [].
Proof.
  intros Ei Eo Hname Hok. unfold Init_node_ok in Hok. unfold Init_node.
  rewrite Ei. simpl.
  destruct (GetNodeAndRegistration context node_idx).2 as [[node reg]|]; [|done].
  simpl. rewrite Eo. simpl.
  pose proof (lookup_lt_Some _ _ _ Eo) as Hlt.
  assert (match custom_name reg with
          | Some n => n
          | None => Op.custom_name operation
          end = default EmptyString (custom_name reg)) as ->.
  { rewrite Hname. by destruct (custom_name reg). }
  destruct (bool_decide (default EmptyString (custom_name reg) = EmptyString)); simpl.
  - destruct (SupportedBuiltinOps !! builtin_code reg) as [it|]; [|done]. simpl.
    destruct (GetStateTensorIndexes it context node reg) as [has_states states].
    simpl. destruct (builtin_data node) as [src|]; simpl.
    + apply bool_decide_eq_true in Hok.
      rewrite memcpy_n_Done by done. simpl.
      rewrite store_at_Done by done. by eexists _, _.
    + rewrite store_at_Done by done. by eexists _, _.
  - destruct (SupportedBuiltinCustomOps !! default EmptyString (custom_name reg)) as [it|];
      [|done]. simpl.
    destruct (GetStateTensorIndexes it context node reg) as [has_states states].
    simpl. destruct (user_data node) as [src|]; simpl.
    + apply bool_decide_eq_true in Hok.
      rewrite memcpy_n_Done by done. simpl.
      rewrite store_at_Done by done. by eexists _, _.
    + rewrite store_at_Done by done. by eexists _, _.
Qed.

Lemma Init_nodes_Done context params n : forall k operations_ subgraph_states,
  (k + n <= length (nodes_to_replace params))%nat ->
  length operations_ = length (nodes_to_replace params) ->
  (forall i operation, (k <= i)%nat -> operations_ !! i = Some operation ->
                       Op.custom_name operation = EmptyString) ->
  Forall (fun node_idx => Init_node_ok context node_idx = true)
    (nodes_to_replace params) ->
  exists operations' subgraph_states',
    for_each (Init_node context params) (seq k n) (operations_, subgraph_states) =
    Done (operations', subgraph_states') [].
Proof.
  induction n as [|n IH]; intros k ops states Hk Hlen Hempty Hok.
  - by eexists _, _.
  - destruct (lookup_lt_is_Some_2 (nodes_to_replace params) k) as [node_idx Ei];
      [lia|].
    destruct (lookup_lt_is_Some_2 ops k) as [operation Eo]; [lia|].
    destruct (Init_node_Done context params k node_idx ops operation states)
      as (operation' & states' & Estep); try done.
    { by eapply Hempty. }
    { eapply Forall_lookup_1 in Hok; eauto. }
    destruct (IH (S k) (<[k:=operation']> ops) states') as (ops'' & states'' & E);
      try done.
    { lia. }
    { by rewrite length_insert. }
    { intros i op Hi. rewrite list_lookup_insert_ne by lia. apply Hempty. lia. }
    exists ops'', states''. cbn [for_each seq].
    eapply bind_Done_nil; [exact Estep | exact E].
Qed.

Lemma resize_to_length {A} n (d : A) v : length (resize_to n d v) = n.
Proof.
  unfold resize_to. rewrite length_app, length_take, length_replicate. lia.
Qed.

(** Conversely, whenever the input loop of [Init] runs through, it has
    appended the inputs that are not constant. *)
Lemma Init_inputs_Done_inv context input_tensors : forall subgraph_inputs r log,
  for_each (Init_input context) input_tensors subgraph_inputs = Done r log ->
  r = subgraph_inputs
      ++ filter (fun idx => not_constant context idx = true) input_tensors.
Proof.
  induction input_tensors as [|idx l IH]; intros acc r log H.
  - injection H as <- <-. by rewrite app_nil_r.
  - cbn [for_each] in H. inv_bind H as (acc' & l1 & l2 & Estep & H & _).
    apply IH in H as ->. unfold Init_input in Estep.
    inv_bind Estep as (tensor & l3 & l4 & Et & Estep & _).
    apply defined_Done_inv in Et as [Et _].
    assert (not_constant context idx
            = bool_decide (allocation_type tensor <> kTfLiteMmapRo)) as Hc.
    { unfold not_constant. by rewrite Et. }
    rewrite filter_cons, Hc.
    destruct (decide (allocation_type tensor <> kTfLiteMmapRo)).
    + injection Estep as <- _. rewrite bool_decide_eq_true_2 by done.
      rewrite decide_True by done. by rewrite <- app_assoc.
    + injection Estep as <- _. rewrite bool_decide_eq_false_2 by done.
      by rewrite decide_False by done.
Qed.

(** Whatever [OpData] [Init] returns, on any delegate, its subgraph inputs
    are the host's input indexes that are not constant, and its subgraph
    outputs the host's output indexes. *)
Lemma Init_Done_inv d context params d' op_data log :
  Init d context params = Done (d', op_data) log ->
  subgraph_inputs op_data =
    filter (fun idx => not_constant context idx = true) (input_tensors params) /\
  subgraph_outputs op_data = output_tensors params.
Proof.
  unfold Init. intros H.
  inv_bind H as (u & l1 & l2 & _ & H & _). cbv zeta in H.
  inv_bind H as (subgraph_inputs & l3 & l4 & Ein & H & _).
  inv_bind H as ([operations subgraph_states] & l5 & l6 & _ & H & _).
  injection H as _ <- _. apply Init_inputs_Done_inv in Ein as ->. done.
Qed.

(** C8.  [Delegate::Init], on a delegate that holds no operations yet, with
    input indexes that are tensors of the context and nodes it can extract,
    returns an [OpData] whose subgraph inputs are the input tensor indexes
    the host supplied, in the host's order, without those whose tensor is
    read-only mapped memory, and whose subgraph outputs are the output
    tensor indexes the host supplied, as they are. *)
Theorem Init_subgraph_inputs_outputs d context params :
  operations_ d = [] ->
  Forall (fun idx => 0 <= idx < Z.of_nat (length (tensors context)))
    (input_tensors params) ->
  Forall (fun node_idx => Init_node_ok context node_idx = true)
    (nodes_to_replace params) ->
  exists d' op_data log,
    Init d context params = Done (d', op_data) log /\
    subgraph_inputs op_data =
      filter (fun idx => not_constant context idx = true) (input_tensors params) /\
    subgraph_outputs op_data = output_tensors params.
Proof.
  intros Hops Hin Hnodes. unfold Init. rewrite Hops.
  destruct (Init_nodes_Done context params (length (nodes_to_replace params)) 0
              (resize_to (length (nodes_to_replace params)) Op.empty []) [])
    as (ops' & states' & E); try done.
  { apply resize_to_length. }
  { intros i op _. unfold resize_to. rewrite take_nil. simpl.
    intros [-> _]%lookup_replicate. done. }
  eexists _, _, _. split.
  - eapply bind_Done; [done|]. cbv zeta.
    eapply bind_Done_nil; [by apply Init_inputs|].
    eapply bind_Done_nil; [exact E|]. done.
  - done.
Qed.

(** ** Constant tensors *)

Lemma for_each_ext {A S} (f g : A -> S -> Outcome S) l : forall s,
  Forall (fun x => forall s, f x s = g x s) l ->
  for_each f l s = for_each g l s.
Proof.
  induction l as [|x l IH]; intros s Hfg; [done|].
  apply Forall_cons in Hfg as [Hx Hl]. cbn [for_each]. rewrite Hx.
  unfold mbind, outcome_mbind, outcome_bind.
  destruct (g x s) as [s' log| |]; [|done..]. by rewrite IH.
Qed.

Lemma perm_ok_in_range tensor perm :
  perm <> [] -> perm_ok tensor perm = true ->
  length perm = length (dims tensor) /\
  Forall (fun p => (p < length (dims tensor))%nat) perm.
Proof.
  intros Hne Hok. destruct perm as [|p perm]; [done|].
  apply andb_prop in Hok as [Hlen Hin]. apply bool_decide_eq_true in Hlen.
  split; [done|]. apply Forall_forall. intros q Hq%list_elem_of_In.
  rewrite forallb_forall in Hin. specialize (Hin q Hq).
  by apply bool_decide_eq_true in Hin.
Qed.

(** What [TransposeTensorData] returns: [false] and the buffer as it was
    for a tensor without data; [false], a line at severity [ERROR] and a
    zeroed buffer for an element type without a transpose; [true] and the
    transposed bytes otherwise. *)
Lemma TransposeTensorData_Done tensor perm data_out :
  Forall (fun p => (p < length (dims tensor))%nat) perm ->
  (length perm <= TransposeParams_perm_size)%nat ->
  TransposeTensorData tensor perm data_out =
  match data_raw tensor with
  | None => Done (false, data_out) []
  | Some tensor_data =>
      let buffer := resize_to (bytes tensor) Byte.x00 data_out in
      match transpose_width (type tensor) with
      | Some width =>
          Done (true,
                Transpose width perm (dims tensor) tensor_data
                  ((fun p => nth p (dims tensor) 0) <$> perm) buffer) []
      | None =>
          Done (false, buffer)
            [(ERROR, [LStr "Unsupported type: ";
                      LInt (TfLiteType_code (type tensor))])]
      end
  end.
Proof.
  intros Hin Hcap. unfold TransposeTensorData.
  destruct (data_raw tensor) as [tensor_data|]; [|done].
  rewrite (for_each_ext _ (gather_dim (dims tensor) perm)).
  - rewrite gather_all by (by rewrite ?length_replicate).
    by destruct (transpose_width (type tensor)).
  - apply Forall_forall. intros i Hi%elem_of_seq s.
    rewrite bool_decide_eq_true_2 by lia. unfold assert.
    unfold mbind, outcome_mbind, outcome_bind.
    by destruct (gather_dim _ _ _ _).
Qed.

(** C5 (as amended).  [CreateTensor] at the storage class [CONSTANT] with a
    permutation creates one tensor, with the spec of [CreateTensorSpec]:
    from the bytes transposed by [TransposeTensorData] when that call
    succeeds, which it does exactly when the tensor has data and its
    element type has a transpose; and from the data pointer of the host
    tensor as it is when the call fails. *)
Theorem CreateTensor_constant_permuted graph tensor perm :
  perm <> [] ->
  perm_ok tensor perm = true ->
  quantization_ok tensor = true ->
  (length perm <= TransposeParams_perm_size)%nat ->
  exists spec transposed data_transposed log_spec log_transpose,
    CreateTensorSpec tensor perm CONSTANT = Done spec log_spec /\
    TransposeTensorData tensor perm [] =
      Done (transposed, data_transposed) log_transpose /\
    transposed =
      bool_decide (data_raw tensor <> None /\
                   transpose_width (type tensor) <> None) /\
    CreateTensor graph tensor CONSTANT perm =
      Done (Graph_CreateTensor graph spec
              (if transposed then Some data_transposed else data_raw tensor))
        (log_spec ++ log_transpose).
Proof.
  intros Hne Hperm Hq Hcap.
  destruct (perm_ok_in_range tensor perm Hne Hperm) as [Hlen Hin].
  destruct (CreateTensorSpec_Done tensor perm CONSTANT Hq Hperm)
    as (datatype & log_spec & Espec).
  pose proof (TransposeTensorData_Done tensor perm [] Hin Hcap) as Et.
  assert (exists transposed data_transposed log_transpose,
            TransposeTensorData tensor perm [] =
              Done (transposed, data_transposed) log_transpose /\
            transposed =
              bool_decide (data_raw tensor <> None /\
                           transpose_width (type tensor) <> None))
    as (transposed & data_transposed & log_transpose & Et' & Hb).
  { rewrite Et. destruct (data_raw tensor) as [src|].
    - cbv zeta. destruct (transpose_width (type tensor)) as [w|].
      + eexists _, _, _. split; [done|].
        by rewrite bool_decide_eq_true_2.
      + eexists _, _, _. split; [done|].
        rewrite bool_decide_eq_false_2; [done | by intros [_ ?]].
    - eexists _, _, _. split; [done|].
      rewrite bool_decide_eq_false_2; [done | by intros [? _]]. }
  eexists _, transposed, data_transposed, log_spec, log_transpose.
  split; [exact Espec|]. split; [exact Et'|]. split; [exact Hb|].
  unfold CreateTensor. eapply bind_Done; [exact Espec|].
  rewrite decide_True by (destruct perm; [done | simpl; lia]).
  rewrite <- (app_nil_r log_transpose). eapply bind_Done; [exact Et'|].
  by destruct transposed.
Qed.

(** ** Graph builder: guarded creation *)

Lemma CreateTensor_Done_inv graph tensor attr perm graph' created log :
  CreateTensor graph tensor attr perm = Done (graph', created) log ->
  exists spec data, (graph', created) = Graph_CreateTensor graph spec data.
Proof.
  unfold CreateTensor. intros H. inv_bind H as (spec & l1 & l2 & _ & H & _).
  destruct attr; simpl in H;
    try (injection H as <- <-; by eexists _, _).
  case_decide.
  - inv_bind H as ([[] data] & l3 & l4 & _ & H & _);
      injection H as <- <-; by eexists _, _.
  - injection H as <- <-. by eexists _, _.
Qed.


(** The two ways the guarded creation completes: nothing happens, or one
    tensor is created and stored in the slot, which was null. *)
Lemma create_if_null_Done_inv context attr_of tensor_idx graph table graph' table' log :
  create_if_null context attr_of tensor_idx (graph, table) = Done (graph', table') log ->
  (needs_creation table tensor_idx = false /\ graph' = graph /\ table' = table) \/
  (needs_creation table tensor_idx = true /\
   (exists spec data,
      g_tensors graph' = g_tensors graph ++ [VxTensor_created spec data]) /\
   table' = <[Z.to_nat tensor_idx := Some (length (g_tensors graph))]> table /\
   (Z.to_nat tensor_idx < length table)%nat /\ 0 <= tensor_idx).
Proof.
  unfold create_if_null, needs_creation. intros H. case_decide as Hidx.
  - inv_bind H as (entry & l1 & l2 & E & H & ->).
    apply defined_Done_inv in E as [E ->].
    rewrite bool_decide_eq_true_2 by done. rewrite E. simpl.
    destruct entry as [h|].
    + left. injection H as <- <- <-. by rewrite bool_decide_eq_false_2.
    + right. rewrite bool_decide_eq_true_2 by done. split; [done|].
      inv_bind H as (tensor & l3 & l4 & _ & H & ->).
      inv_bind H as ([graph1 created] & l5 & l6 & Ec & H & ->).
      inv_bind H as (table1 & l7 & l8 & Es & H & ->).
      apply store_at_Done_inv in Es as (Hlt & -> & ->).
      injection H as <- <- <-.
      apply CreateTensor_Done_inv in Ec as (spec & data & [= -> ->]).
      split; [by eexists _, _|]. split; [done|]. split; [done|].
      unfold at_Z in E. by case_decide.
  - left. injection H as <- <- <-. by rewrite bool_decide_eq_false_2 by tauto_goal.
Qed.


Lemma create_all_loop context attr_of idxs st :
  for_each (create_if_null context attr_of) idxs st =
  create_all context ((fun idx => (attr_of, idx)) <$> idxs) st.
Proof.
  unfold create_all. revert st. induction idxs as [|idx idxs IH]; intros st; [done|].
  cbn [for_each fmap list_fmap]. simpl.
  unfold mbind, outcome_mbind, outcome_bind.
  destruct (create_if_null _ _ _ _) as [st' log| |]; [|done..]. by rewrite IH.
Qed.

Lemma needs_creation_insert table tensor_idx h idx :
  0 <= tensor_idx -> (Z.to_nat tensor_idx < length table)%nat ->
  needs_creation (<[Z.to_nat tensor_idx := Some h]> table) idx = true <->
  needs_creation table idx = true /\ idx <> tensor_idx.
Proof.
  intros Hpos Hlt. unfold needs_creation, at_Z.
  rewrite !andb_true_iff, !bool_decide_eq_true.
  destruct (decide (idx = tensor_idx)) as [->|Hne].
  - rewrite decide_True by done. rewrite list_lookup_insert_eq by done.
    split; [by intros [_ [=]] | tauto_goal].
  - case_decide; [|tauto_goal].
    rewrite list_lookup_insert_ne by lia. tauto_goal.
Qed.

Lemma remove_dups_cons_length (x : Z) (l k : list Z) :
  (forall y, y ∈ k <-> y ∈ l /\ y <> x) ->
  length (remove_dups (x :: l)) = S (length (remove_dups k)).
Proof.
  intros Hk.
  apply (Permutation_length (l := remove_dups (x :: l)) (l' := x :: remove_dups k)).
  apply NoDup_Permutation.
  - apply NoDup_remove_dups.
  - apply NoDup_cons. split; [|apply NoDup_remove_dups].
    rewrite elem_of_remove_dups, Hk. tauto_goal.
  - intros y. rewrite elem_of_remove_dups, !elem_of_cons, elem_of_remove_dups, Hk.
    destruct (decide (y = x)); tauto_goal.
Qed.

(** A run of guarded creations: it creates one tensor for each distinct
    index whose slot was null, keeps every tensor a slot held, and leaves no
    index of the run with a null slot. *)
Lemma create_all_Done_inv context touches : forall graph table graph' table' log,
  create_all context touches (graph, table) = Done (graph', table') log ->
  length (g_tensors graph') =
    (length (g_tensors graph)
     + length (remove_dups
                 (filter (fun idx => needs_creation table idx = true) touches.*2)))%nat /\
  length table' = length table /\
  (forall j h, table !! j = Some (Some h) -> table' !! j = Some (Some h)) /\
  (forall idx, idx ∈ touches.*2 -> idx <> -1 ->
     exists h, at_Z table' idx = Some (Some h)).
Proof.
  unfold create_all.
  induction touches as [|[attr_of tensor_idx] touches IH];
    intros graph table graph' table' log H.
  - injection H as <- <- <-. simpl. split; [lia|]. split; [done|].
    split; [done|]. intros idx Hin. by apply elem_of_nil in Hin.
  - cbn [for_each] in H. inv_bind H as ([graph1 table1] & l1 & l2 & Estep & H & ->).
    apply IH in H as (Hcount & Hlen & Hkept & Hres). clear IH.
    rewrite fmap_cons. cbn [snd].
    cbn [fst snd] in Estep. pose proof Estep as Estep'.
    apply create_if_null_Done_inv in Estep
      as [(Hneeds & -> & ->)|(Hneeds & (spec & data & Eg) & -> & Hlt & Hpos)].
    + split.
      { rewrite Hcount, filter_cons.
        rewrite decide_False; [done | by rewrite Hneeds]. }
      split; [done|]. split; [done|].
      intros idx [->|Hin]%elem_of_cons Hne; [|by apply Hres].
      unfold create_if_null in Estep'. rewrite decide_True in Estep' by done.
      inv_bind Estep' as (entry & l3 & l4 & E & _ & _).
      apply defined_Done_inv in E as [E _].
      unfold needs_creation in Hneeds. rewrite E in Hneeds.
      rewrite bool_decide_eq_true_2 in Hneeds by done.
      destruct entry as [h|]; [|by rewrite bool_decide_eq_true_2 in Hneeds].
      exists h. unfold at_Z in E |- *. case_decide; [|done]. by apply Hkept.
    + split.
      { rewrite Hcount, Eg, length_app, filter_cons.
        rewrite decide_True by done. cbn [length].
        rewrite (remove_dups_cons_length _ _
                   (filter (fun idx =>
                              needs_creation
                                (<[Z.to_nat tensor_idx
                                   := Some (length (g_tensors graph))]> table) idx
                              = true) touches.*2)); [lia|].
        intros idx. rewrite !list_elem_of_filter, needs_creation_insert by done.
        tauto_goal. }
      rewrite length_insert in Hlen. split; [done|]. split.
      { intros j h Ej. apply Hkept.
        destruct (decide (j = Z.to_nat tensor_idx)) as [->|Hne].
        - unfold needs_creation, at_Z in Hneeds.
          rewrite decide_True in Hneeds by done. rewrite Ej in Hneeds.
          apply andb_prop in Hneeds as [_ Hn].
          by apply bool_decide_eq_true in Hn.
        - by rewrite list_lookup_insert_ne. }
      intros idx [->|Hin]%elem_of_cons Hne; [|by apply Hres].
      exists (length (g_tensors graph)).
      rewrite at_Z_lookup by done. apply Hkept.
      by apply list_lookup_insert_eq.
Qed.

Lemma at_Z_Some_range {A} (v : list A) (i : Z) x :
  at_Z v i = Some x -> 0 <= i < Z.of_nat (length v).
Proof.
  unfold at_Z. case_decide; [|done]. intros E%lookup_lt_Some. lia.
Qed.


Lemma kept_at_Z (table table' : list (option Handle)) :
  (forall j h, table !! j = Some (Some h) -> table' !! j = Some (Some h)) ->
  forall idx h, at_Z table idx = Some (Some h) -> at_Z table' idx = Some (Some h).
Proof.
  intros Hkept idx h. unfold at_Z. case_decide; [apply Hkept | done].
Qed.


(** ** Graph builder: the whole build *)

Lemma create_loop_kept context attr_of idxs graph table graph' table' log :
  for_each (create_if_null context attr_of) idxs (graph, table)
    = Done (graph', table') log ->
  length table' = length table /\
  (forall j h, table !! j = Some (Some h) -> table' !! j = Some (Some h)).
Proof.
  rewrite create_all_loop. intros (_ & Hlen & Hkept & _)%create_all_Done_inv. done.
Qed.

Lemma Invoke_create_op_kept context op_info graph tensors state_tensors
    graph' tensors' state_tensors' log :
  Invoke_create_op context op_info (graph, tensors, state_tensors)
    = Done (graph', tensors', state_tensors') log ->
  length tensors' = length tensors /\
  (forall j h, tensors !! j = Some (Some h) -> tensors' !! j = Some (Some h)) /\
  length state_tensors' = length state_tensors /\
  (forall j h, state_tensors !! j = Some (Some h) ->
               state_tensors' !! j = Some (Some h)).
Proof.
  unfold Invoke_create_op. intros H.
  inv_bind H as ([graph1 tensors1] & l1 & l2 & E1 & H & _).
  inv_bind H as ([graph2 state_tensors1] & l3 & l4 & E2 & H & _).
  inv_bind H as (inputs_tensors & l5 & l6 & _ & H & _).
  inv_bind H as (outputs_tensors & l7 & l8 & _ & H & _).
  inv_bind H as (states_tensors & l9 & l10 & _ & H & _).
  inv_bind H as (it & l11 & l12 & _ & H & _).
  injection H as <- <- <- <-.
  apply create_loop_kept in E1 as [? ?]. apply create_loop_kept in E2 as [? ?].
  done.
Qed.

Lemma Invoke_create_ops_kept context operations :
  forall graph tensors state_tensors graph' tensors' state_tensors' log,
  for_each (Invoke_create_op context) operations (graph, tensors, state_tensors)
    = Done (graph', tensors', state_tensors') log ->
  length tensors' = length tensors /\
  (forall j h, tensors !! j = Some (Some h) -> tensors' !! j = Some (Some h)).
Proof.
  induction operations as [|op_info operations IH];
    intros graph tensors state_tensors graph' tensors' state_tensors' log H.
  - by injection H as <- <- <- <-.
  - cbn [for_each] in H.
    inv_bind H as ([[graph1 tensors1] state_tensors1] & l1 & l2 & E & H & _).
    apply Invoke_create_op_kept in E as (Hlen & Hkept & _).
    apply IH in H as (Hlen' & Hkept'). split; [congruence|].
    intros j h Ej. by apply Hkept', Hkept.
Qed.

(** The placeholder, the first tensor of the fresh graph, is in the last
    slot of [tensors_] when the build is over: no guarded creation
    replaces it. *)
Lemma Invoke_build_graph_placeholder op_data d context graph tensors state_tensors log :
  Z.of_nat (length (tensors_ d)) < 2 ^ 63 ->
  Invoke_build_graph op_data d context = Done (graph, tensors, state_tensors) log ->
  length tensors = length (tensors_ d) /\ last tensors = Some (Some 0%nat).
Proof.
  intros Hsize. unfold Invoke_build_graph. cbn [Graph_CreateTensorPlaceHolder
    Graph_empty g_tensors length]. intros H.
  inv_bind H as (tensors0 & l1 & l2 & E0 & H & _).
  inv_bind H as ([graph1 tensors1] & l3 & l4 & E1 & H & _).
  inv_bind H as ([graph2 tensors2] & l5 & l6 & E2 & H & _).
  apply defined_Done_inv in E0 as [E0 _].
  apply bind_Some in E0 as (entry & Elast & [= <-]).
  apply at_Z_Some_range in Elast.
  assert (to_size_t (Z.of_nat (length (tensors_ d)) - 1)
          = Z.of_nat (length (tensors_ d)) - 1) as Hlast.
  { destruct (decide (length (tensors_ d) = 0%nat)) as [Hz|Hnz].
    - rewrite Hz in Elast. simpl in Elast. lia.
    - apply to_size_t_id. lia. }
  rewrite Hlast in *.
  apply create_loop_kept in E1 as [Hlen1 Hkept1].
  apply create_loop_kept in E2 as [Hlen2 Hkept2].
  apply Invoke_create_ops_kept in H as [Hlen3 Hkept3].
  rewrite length_insert in Hlen1. split; [congruence|].
  rewrite last_lookup. apply Hkept3, Hkept2, Hkept1.
  replace (pred (length tensors)) with (Z.to_nat (Z.of_nat (length (tensors_ d)) - 1))
    by lia.
  apply list_lookup_insert_eq. lia.
Qed.

(** ** Execution driver *)

Lemma Invoke_run_failure op_data m :
  (Run (layout_infered_ (m_delegate m)).1 (m_device m)).1 = false ->
  Invoke_run op_data m =
  Aborted [(INFO, [LStr "Invoking graph"]); (FATAL, [LStr "Failed to run graph"])].
Proof.
  intros Hrun. unfold Invoke_run.
  destruct (Run _ _) as [ran device]. simpl in Hrun. subst ran. done.
Qed.

Lemma Invoke_compile_failure op_data d context graph tensors state_tensors log :
  Invoke_build_graph op_data d context = Done (graph, tensors, state_tensors) log ->
  Compile (LayoutInference graph).1 = false ->
  Invoke_compile op_data d context =
  Aborted (log ++ [(INFO, [LStr "Verifying graph"]);
                   (FATAL, [LStr "Failed to verify graph"])]).
Proof.
  intros Ebuild Hcompile. unfold Invoke_compile.
  eapply bind_Aborted; [exact Ebuild|]. cbv beta iota zeta. rewrite Hcompile. done.
Qed.

(** C6.  When [Delegate::Invoke] reaches the call of [Run] and the call
    fails, the invocation is aborted at the line of severity [FATAL] that
    reports it: no status is returned, neither success nor an error, and
    nothing is copied back.  A failure of [Compile] in the build ends the
    invocation in the same way, at the [FATAL] line that reports it. *)
Theorem Invoke_run_failure_aborts op_data m node :
  (forall m1 log1,
     Invoke_before_run op_data m node = Done (inr m1) log1 ->
     (Run (layout_infered_ (m_delegate m1)).1 (m_device m1)).1 = false ->
     Invoke op_data m node =
     Aborted (log1 ++ [(INFO, [LStr "Invoking graph"]);
                       (FATAL, [LStr "Failed to run graph"])])) /\
  (forall graph tensors state_tensors log,
     compiled_ (m_delegate m) = false ->
     Invoke_build_graph op_data (m_delegate m) (m_context m)
       = Done (graph, tensors, state_tensors) log ->
     Compile (LayoutInference graph).1 = false ->
     Invoke op_data m node =
     Aborted ((INFO, [LStr "Delegate::Invoke node:"; LPtr])
              :: log ++ [(INFO, [LStr "Verifying graph"]);
                         (FATAL, [LStr "Failed to verify graph"])])).
Proof.
  split.
  - intros m1 log1 Ebefore Hrun. unfold Invoke.
    eapply bind_Aborted; [exact Ebefore|]. by apply Invoke_run_failure.
  - intros graph tensors state_tensors log Hc Ebuild Hcompile.
    unfold Invoke, Invoke_before_run. rewrite Hc. cbn [negb].
    erewrite Invoke_compile_failure by done. done.
Qed.

(** * Further properties *)

(** ** Tensor bridge *)

(** X1.  The dimensions that [TfLiteTensorDims] returns are the host dimensions
    converted from [int] to [uint32_t]: the rank is kept, a dimension that
    is not negative is kept, and a negative dimension [d] becomes
    [d + 2^32] (so [-1] becomes [4294967295]). *)
Theorem TfLiteTensorDims_conversion tensor :
  Forall (fun d => - 2 ^ 31 <= d < 2 ^ 31) (dims tensor) ->
  Forall2 (fun d converted =>
             0 <= converted < 2 ^ 32 /\
             converted = if decide (d < 0) then d + 2 ^ 32 else d)
    (dims tensor) (TfLiteTensorDims tensor).
Proof.
  unfold TfLiteTensorDims. induction 1 as [|d ds Hd _ IH]; simpl; constructor;
    [|exact IH].
  unfold to_uint32. split; [by apply Z.mod_pos_bound|].
  case_decide.
  - symmetry. apply Z.mod_unique with (q := -1); lia.
  - apply Z.mod_small. lia.
Qed.

(** The spec that [CreateTensorSpec] returns, field by field; the log is
    that of the conversion of the element type. *)
Lemma CreateTensorSpec_Done_form tensor perm attr spec log :
  CreateTensorSpec tensor perm attr = Done spec log ->
  TfLiteDtypeToVsiDtype (type tensor) = Done (datatype_ spec) log /\
  shape_ spec = whcn_shape_of (TfLiteTensorDims tensor) perm /\
  attr_ spec = attr /\
  quantization_ spec = quantization_of tensor.
Proof.
  intros H.
  destruct (CreateTensorSpec_Done_inv _ _ _ _ _ H) as [Hperm Hq].
  pose proof (CreateTensorSpec_shape_Done tensor perm Hperm) as Hs.
  cbv zeta in Hs. revert H. unfold CreateTensorSpec. intros H.
  inv_bind H as (datatype & l1 & l2 & Ed & H & ->). cbv zeta in H.
  inv_bind H as (whcn_shape & l3 & l4 & Es & H & ->).
  rewrite Hs in Es. injection Es as <- <-.
  pose proof (vx_rank_eq tensor) as Hr. cbv zeta in Hr. rewrite Hr in H.
  unfold quantization_ok in Hq. unfold quantization_of.
  destruct (q_type (quantization tensor)).
  - injection H as <- <-. by rewrite app_nil_r.
  - destruct (q_params (quantization tensor)) as [params|]; [|done].
    simpl in H.
    destruct (scale params) as [|s [|s' ss]], (zero_point params) as [|z zs];
      try done; simpl in H; injection H as <- <-; by rewrite app_nil_r.
Qed.

(** X2.  [CreateTensorSpec] returns a spec exactly on the arguments that
    [perm_ok] and [quantization_ok] accept: without a permutation or with
    one of the length of the host shape whose entries are axes of it, and
    without affine quantization or with parameters that hold the scale and
    zero point it reads. *)
Theorem CreateTensorSpec_defined_iff tensor perm attr :
  (exists spec log, CreateTensorSpec tensor perm attr = Done spec log) <->
  perm_ok tensor perm = true /\ quantization_ok tensor = true.
Proof.
  split.
  - intros (spec & log & H). by eapply CreateTensorSpec_Done_inv.
  - intros [Hperm Hq].
    destruct (CreateTensorSpec_Done tensor perm attr Hq Hperm)
      as (datatype & log & E).
    by eexists _, _.
Qed.

(** X3.  An element type that [TfLiteDtypeToVsiDtype] does not know does not
    stop [CreateTensorSpec]: the spec gets the type [FLOAT32] and the log
    one line at severity [ERROR].  For a known type nothing is logged.  In
    both cases the spec has the storage class that was asked for. *)
Theorem CreateTensorSpec_unknown_type tensor perm attr spec log :
  CreateTensorSpec tensor perm attr = Done spec log ->
  attr_ spec = attr /\
  if dtype_known (type tensor) then log = []
  else datatype_ spec = FLOAT32 /\
       log = [(ERROR, [LStr "Unsuppoted type:";
                       LInt (TfLiteType_code (type tensor))])].
Proof.
  intros (Ed & _ & Hattr & _)%CreateTensorSpec_Done_form.
  split; [done|].
  destruct (type tensor); simpl in *; injection Ed as Hd Hl;
    rewrite <- ?Hd, <- ?Hl; done.
Qed.

Lemma element_count_Permutation (l k : list Z) :
  l ≡ₚ k -> element_count l = element_count k.
Proof.
  unfold element_count.
  induction 1 as [|x l k _ IH|x y l|l k m _ IH1 _ IH2]; simpl.
  - done.
  - by rewrite IH.
  - by rewrite !Z.mul_assoc, (Z.mul_comm y x).
  - by rewrite IH1.
Qed.

Lemma gather_seq (dims : list Z) :
  (fun p => nth p dims 0) <$> seq 0 (length dims) = dims.
Proof.
  apply list_eq. intros i. rewrite list_lookup_fmap.
  destruct (decide (i < length dims)%nat) as [Hlt|Hge].
  - rewrite lookup_seq_lt by done. simpl.
    destruct (lookup_lt_is_Some_2 dims i Hlt) as [d Ed].
    by rewrite Ed, (nth_lookup_Some _ _ _ _ Ed).
  - rewrite lookup_seq_ge by lia. simpl. symmetry. apply lookup_ge_None. lia.
Qed.

(** X4.  When the permutation is a rearrangement of the axes [0 .. rank-1] (or
    there is none), the accelerator shape has as many elements as the host
    shape, and for a host shape of rank 1 or more it is a rearrangement of
    the host dimensions. *)
Theorem CreateTensorSpec_element_count tensor perm attr :
  quantization_ok tensor = true ->
  perm = [] \/ perm ≡ₚ seq 0 (length (dims tensor)) ->
  exists spec log,
    CreateTensorSpec tensor perm attr = Done spec log /\
    element_count (shape_ spec) = element_count (TfLiteTensorDims tensor) /\
    (dims tensor <> [] -> shape_ spec ≡ₚ TfLiteTensorDims tensor).
Proof.
  intros Hq Hperm.
  assert (perm = [] \/ (perm <> [] /\ perm ≡ₚ seq 0 (length (dims tensor))))
    as [->|[Hne Hp]].
  { destruct perm; [by left|]. destruct Hperm; [done|]. by right. }
  - destruct (CreateTensorSpec_Done tensor [] attr Hq eq_refl)
      as (datatype & log & E).
    eexists _, log. split; [exact E|]. simpl.
    pose proof (length_TfLiteTensorDims tensor) as Hlen.
    destruct (TfLiteTensorDims tensor) as [|d ds] eqn:Ed.
    + split; [done|]. intros Hd. by destruct (dims tensor).
    + split; [|intros _; apply reverse_Permutation].
      apply element_count_Permutation, reverse_Permutation.
  - assert (perm_ok tensor perm = true) as Hok.
    { destruct perm as [|p perm]; [done|]. unfold perm_ok.
      apply andb_true_intro. split.
      - apply bool_decide_eq_true. rewrite (Permutation_length Hp).
        apply length_seq.
      - apply forallb_forall. intros q Hq'%list_elem_of_In.
        rewrite Hp in Hq'. apply elem_of_seq in Hq'.
        apply bool_decide_eq_true. lia. }
    destruct (CreateTensorSpec_Done tensor perm attr Hq Hok)
      as (datatype & log & E).
    eexists _, log. split; [exact E|]. simpl.
    assert (whcn_shape_of (TfLiteTensorDims tensor) perm
            ≡ₚ TfLiteTensorDims tensor) as Hshape.
    { unfold whcn_shape_of. destruct perm as [|p perm]; [done|].
      rewrite reverse_Permutation, Hp, <- length_TfLiteTensorDims.
      by rewrite gather_seq. }
    split; [by apply element_count_Permutation | done].
Qed.

(** ** Constant tensors and tensor creation *)

Lemma for_each_Done_steps {A S} (f : A -> S -> Outcome S) l : forall s s' log,
  for_each f l s = Done s' log ->
  Forall (fun x => exists s1 s2 log', f x s1 = Done s2 log') l.
Proof.
  induction l as [|x l IH]; intros s s' log H; [constructor|].
  cbn [for_each] in H. inv_bind H as (s1 & l1 & l2 & Ex & H & _).
  constructor; [by eexists _, _, _ | by eapply IH].
Qed.

(** X5.  [TransposeTensorData] on a tensor without data returns [false] and
    leaves the buffer alone, whatever the permutation is.  On a tensor with
    data it returns at all exactly when every entry of the permutation is
    an axis of the host shape and the permutation fits [TransposeParams]:
    otherwise it reads [dims->data] or writes [params.perm] out of
    bounds. *)
Theorem TransposeTensorData_defined tensor perm data_out :
  match data_raw tensor with
  | None => TransposeTensorData tensor perm data_out = Done (false, data_out) []
  | Some _ =>
      (exists r log, TransposeTensorData tensor perm data_out = Done r log) <->
      Forall (fun p => (p < length (dims tensor))%nat) perm /\
      (length perm <= TransposeParams_perm_size)%nat
  end.
Proof.
  destruct (data_raw tensor) as [tensor_data|] eqn:Edata;
    [|unfold TransposeTensorData; by rewrite Edata].
  split.
  - intros (r & log & H). unfold TransposeTensorData in H. rewrite Edata in H.
    inv_bind H as (output_shape & l1 & l2 & Eloop & _ & _).
    apply for_each_Done_steps in Eloop.
    assert (forall i, (i < length perm)%nat ->
              (i < TransposeParams_perm_size)%nat /\
              exists p, perm !! i = Some p /\ (p < length (dims tensor))%nat)
      as Hsteps.
    { intros i Hi. rewrite Forall_forall in Eloop.
      destruct (Eloop i) as (s1 & s2 & log' & Estep); [apply elem_of_seq; lia|].
      inv_bind Estep as (u & l3 & l4 & Ea & Eg & _).
      apply assert_Done_inv in Ea as [Ea%bool_decide_eq_true _].
      split; [done|]. unfold gather_dim in Eg.
      inv_bind Eg as (p & l5 & l6 & Ep & Eg & _).
      inv_bind Eg as (d & l7 & l8 & Ed & _ & _).
      apply defined_Done_inv in Ep as [Ep _].
      apply defined_Done_inv in Ed as [Ed%lookup_lt_Some _].
      by exists p. }
    split.
    + apply Forall_lookup. intros i p Ep.
      destruct (Hsteps i) as (_ & p' & Ep' & Hlt); [by eapply lookup_lt_Some|].
      congruence.
    + destruct (decide (length perm = 0%nat)) as [->|Hne]; [lia|].
      destruct (Hsteps (pred (length perm))) as [Hcap _]; lia.
  - intros [Hin Hcap].
    rewrite (TransposeTensorData_Done tensor perm data_out Hin Hcap), Edata.
    cbv zeta. destruct (transpose_width (type tensor)); by eexists _, _.
Qed.

(** X6.  [CreateTensor] adds exactly one tensor to the graph and returns its
    handle, the number of tensors the graph had: the tensors and operations
    that were in the graph stay as they were.  The new tensor has a spec of
    the storage class asked for; it has no data unless the class is
    [CONSTANT], and at [CONSTANT] without a permutation it has the data
    pointer of the host tensor. *)
Theorem CreateTensor_appends graph tensor attr perm graph' created log :
  CreateTensor graph tensor attr perm = Done (graph', created) log ->
  created = Some (length (g_tensors graph)) /\
  g_ops graph' = g_ops graph /\
  exists spec data,
    g_tensors graph' = g_tensors graph ++ [VxTensor_created spec data] /\
    attr_ spec = attr /\
    shape_ spec = whcn_shape_of (TfLiteTensorDims tensor) perm /\
    (attr <> CONSTANT -> data = None) /\
    (attr = CONSTANT -> perm = [] -> data = data_raw tensor).
Proof.
  unfold CreateTensor. intros H.
  inv_bind H as (spec & l1 & l2 & Espec & H & _).
  apply CreateTensorSpec_Done_form in Espec as (_ & Hshape & Hattr & _).
  destruct attr; simpl in H;
    try (injection H as <- <- _; split; [done|]; split; [done|];
         exists spec, None; by repeat split).
  case_decide as Hperm.
  - inv_bind H as ([[] data] & l3 & l4 & _ & H & _);
      injection H as <- <- _; (split; [done|]); (split; [done|]);
      eexists spec, _; repeat split; try done;
      intros _ ->; simpl in Hperm; lia.
  - injection H as <- <- _. split; [done|]. split; [done|].
    exists spec, (data_raw tensor). by repeat split.
Qed.

(** ** Legality filter: what [PrepareDelegate] returns *)

Lemma PrepareDelegate_loop_stops context pre node_index post status out :
  forall supported_nodes,
  Forall (fun i => exists o, GetNodeAndRegistration context i = (kTfLiteOk, Some o))
    pre ->
  GetNodeAndRegistration context node_index = (status, out) ->
  status <> kTfLiteOk ->
  exists log,
    PrepareDelegate_loop context (pre ++ node_index :: post) supported_nodes =
    Done (inl status) log.
Proof.
  induction pre as [|i pre IH]; intros acc Hpre Ebad Hst.
  - exists []. cbn [app PrepareDelegate_loop]. rewrite Ebad. by destruct status.
  - apply Forall_cons in Hpre as [[[node registration] Ei] Hpre].
    destruct (SupportedOp_Done context node registration) as (supported & l1 & Es).
    destruct (IH (if supported then acc ++ [i] else acc) Hpre Ebad Hst)
      as (l2 & E).
    exists (l1 ++ l2). cbn [app PrepareDelegate_loop]. rewrite Ei.
    eapply bind_Done_nil; [done|]. cbv beta iota.
    eapply bind_Done; [exact Es | exact E].
Qed.

(** X7.  When the host cannot give the node and registration of a node of the
    plan, [PrepareDelegate] returns the status of that call, for the first
    such node, and does not call the subgraph replacement: the nodes
    accepted before it are dropped. *)
Theorem PrepareDelegate_lookup_failure context pre node_index post status out :
  GetExecutionPlan context = (kTfLiteOk, Some (pre ++ node_index :: post)) ->
  Forall (fun i => exists o, GetNodeAndRegistration context i = (kTfLiteOk, Some o))
    pre ->
  GetNodeAndRegistration context node_index = (status, out) ->
  status <> kTfLiteOk ->
  exists log, PrepareDelegate context = Done (status, None) log.
Proof.
  intros Eplan Hpre Ebad Hst.
  destruct (PrepareDelegate_loop_stops context pre node_index post status out [0]
              Hpre Ebad Hst) as (log & E).
  exists log. unfold PrepareDelegate. rewrite Eplan.
  eapply bind_Done_nil; [done|]. cbv zeta.
  rewrite <- (app_nil_r log). eapply bind_Done; [exact E | done].
Qed.

Lemma PrepareDelegate_loop_inl_inv context plan : forall supported_nodes status log,
  PrepareDelegate_loop context plan supported_nodes = Done (inl status) log ->
  status <> kTfLiteOk.
Proof.
  induction plan as [|node_index plan IH]; intros acc status log H; [done|].
  cbn [PrepareDelegate_loop] in H.
  destruct (GetNodeAndRegistration context node_index) as [status' out].
  destruct status'; [|by injection H as <- _|by injection H as <- _].
  inv_bind H as ([node registration] & l1 & l2 & _ & H & _).
  inv_bind H as (supported & l3 & l4 & _ & H & _).
  by eapply IH.
Qed.

(** X8.  Whatever [PrepareDelegate] returns: either it has called the subgraph
    replacement, and then it returns the status of that call, and the
    array it handed over is a count followed by nodes of the plan, in the
    order of the plan and each at most as often as in the plan; or it has
    not called it, and then the status it returns is not [kTfLiteOk]. *)
Theorem PrepareDelegate_result context status handed log :
  PrepareDelegate context = Done (status, handed) log ->
  match handed with
  | Some array =>
      status = ReplaceNodeSubsetsWithDelegateKernels context array /\
      exists plan count accepted,
        GetExecutionPlan context = (kTfLiteOk, Some plan) /\
        array = count :: accepted /\
        accepted `sublist_of` plan
  | None => status <> kTfLiteOk
  end.
Proof.
  intros H. destruct handed as [array|].
  - pose proof H as H'.
    apply PrepareDelegate_Done_inv in H' as (plan & Eplan & Harray).
    cbv zeta in Harray. split.
    + unfold PrepareDelegate in H. rewrite Eplan in H.
      inv_bind H as (plan' & l1 & l2 & _ & H & _). cbv zeta in H.
      inv_bind H as ([st|supported_nodes] & l3 & l4 & _ & H & _);
        [by injection H|].
      inv_bind H as (array' & l5 & l6 & _ & H & _).
      by injection H as <- <- _.
    + eexists plan, _, _. split; [done|]. split; [exact Harray|].
      apply sublist_filter.
  - unfold PrepareDelegate in H.
    destruct (GetExecutionPlan context) as [status' plan].
    destruct status'; [|by injection H as <- _|by injection H as <- _].
    inv_bind H as (plan' & l1 & l2 & _ & H & _). cbv zeta in H.
    inv_bind H as ([st|supported_nodes] & l3 & l4 & El & H & _).
    + injection H as <- _. by eapply PrepareDelegate_loop_inl_inv.
    + inv_bind H as (array' & l5 & l6 & _ & H & _). by injection H.
Qed.

(** ** Subgraph extraction: what [Init] records *)

(** One step of the node loop of [Init], taken apart. *)
Lemma Init_node_Done_inv context params i operations_ subgraph_states
    operations' subgraph_states' log :
  Init_node context params i (operations_, subgraph_states)
    = Done (operations', subgraph_states') log ->
  exists node_idx node reg operation operation' states it,
    nodes_to_replace params !! i = Some node_idx /\
    (GetNodeAndRegistration context node_idx).2 = Some (node, reg) /\
    operations_ !! i = Some operation /\
    operations' = <[i:=operation']> operations_ /\
    let name :=
      match custom_name reg with
      | Some n => n
      | None => Op.custom_name operation
      end in
    let builtin := bool_decide (name = EmptyString) in
    let data := if builtin then builtin_data node else user_data node in
    Op.custom_name operation' = name /\
    Op.builtin_code operation' = builtin_code reg /\
    Op.inputs operation' = Op.inputs operation ++ inputs node /\
    Op.outputs operation' = Op.outputs operation ++ outputs node /\
    Op.states operation' = Op.states operation ++ states /\
    subgraph_states' = subgraph_states ++ states /\
    (if builtin then SupportedBuiltinOps !! builtin_code reg
     else SupportedBuiltinCustomOps !! name) = Some it /\
    param_data_ok data (GetParamSize it) = true /\
    Op.builtin_data operation' =
      match data with
      | Some src => take (GetParamSize it) src
      | None => Op.builtin_data operation
      end.
Proof.
  unfold Init_node. intros H.
  inv_bind H as (node_idx & l1 & l2 & Ei & H & _).
  inv_bind H as ([node reg] & l3 & l4 & En & H & _).
  inv_bind H as (operation & l5 & l6 & Eo & H & _).
  apply defined_Done_inv in Ei as [Ei _]. apply defined_Done_inv in En as [En _].
  apply defined_Done_inv in Eo as [Eo _]. cbv zeta in H.
  inv_bind H as ([has_states states] & l7 & l8 & Est & H & _).
  inv_bind H as (op_builtin_data & l9 & l10 & Ed & H & _).
  inv_bind H as (operations1 & l11 & l12 & Es & H & _).
  apply store_at_Done_inv in Es as (_ & -> & _). injection H as <- <- _.
  exists node_idx, node, reg, operation.
  eexists _, (if has_states then states else []).
  set (name := match custom_name reg with
               | Some n => n
               | None => Op.custom_name operation
               end) in *.
  destruct (bool_decide (name = EmptyString)) eqn:Eb; simpl in Est, Ed.
  - inv_bind Est as (it & l13 & l14 & Eit & Est & _).
    apply defined_Done_inv in Eit as [Eit _]. exists it.
    repeat split; try done; cbv zeta; rewrite ?Eb; simpl.
    + unfold copy_back. destruct has_states; by rewrite ?app_nil_r.
    + unfold copy_back. destruct has_states; by rewrite ?app_nil_r.
    + destruct (builtin_data node) as [src|]; [|done]. simpl in Ed.
      rewrite Eit in Ed. simpl in Ed.
      unfold memcpy_n in Ed. case_decide; [|done]. by apply bool_decide_eq_true.
    + destruct (builtin_data node) as [src|]; simpl in Ed.
      * rewrite Eit in Ed. simpl in Ed.
        unfold memcpy_n in Ed. case_decide; [|done]. by injection Ed as <- _.
      * by injection Ed as <- _.
  - inv_bind Est as (it & l13 & l14 & Eit & Est & _).
    apply defined_Done_inv in Eit as [Eit _]. exists it.
    repeat split; try done; cbv zeta; rewrite ?Eb; simpl.
    + unfold copy_back. destruct has_states; by rewrite ?app_nil_r.
    + unfold copy_back. destruct has_states; by rewrite ?app_nil_r.
    + destruct (user_data node) as [src|]; [|done]. simpl in Ed.
      rewrite Eit in Ed. simpl in Ed.
      unfold memcpy_n in Ed. case_decide; [|done]. by apply bool_decide_eq_true.
    + destruct (user_data node) as [src|]; simpl in Ed.
      * rewrite Eit in Ed. simpl in Ed.
        unfold memcpy_n in Ed. case_decide; [|done]. by injection Ed as <- _.
      * by injection Ed as <- _.
Qed.

(** The node loop of [Init] on slots that are empty from [k] on. *)
Lemma Init_nodes_Done_inv context params n :
  forall k operations_ subgraph_states operations' subgraph_states' log,
  for_each (Init_node context params) (seq k n) (operations_, subgraph_states)
    = Done (operations', subgraph_states') log ->
  (forall i, (k <= i < length operations_)%nat ->
             operations_ !! i = Some Op.empty) ->
  (k + n <= length operations_)%nat ->
  length operations' = length operations_ /\
  (forall i, (i < k \/ k + n <= i)%nat -> operations' !! i = operations_ !! i) /\
  subgraph_states' =
    subgraph_states ++ concat (Op.states <$> take n (drop k operations')) /\
  forall i, (k <= i < k + n)%nat ->
    exists node_idx operation,
      nodes_to_replace params !! i = Some node_idx /\
      operations' !! i = Some operation /\
      extracted_from context node_idx operation /\
      Init_node_ok context node_idx = true.
Proof.
  induction n as [|n IH]; intros k ops states ops' states' log H Hfresh Hlen.
  - injection H as <- <- _. split; [done|]. split; [done|].
    split; [by rewrite app_nil_r | lia].
  - cbn [for_each seq] in H.
    inv_bind H as ([ops1 states1] & l1 & l2 & Estep & H & _).
    apply Init_node_Done_inv in Estep
      as (node_idx & node & reg & operation & operation' & sts & it & Ei & En
          & Eo & -> & Hname & Hcode & Hin & Hout & Hst & -> & Eit & Hdata & _).
    cbv zeta in *.
    rewrite Hfresh in Eo by lia. injection Eo as <-. simpl in *.
    assert (match custom_name reg with
            | Some n0 => n0
            | None => EmptyString
            end = default EmptyString (custom_name reg)) as Hn
      by (by destruct (custom_name reg)).
    rewrite Hn in *. clear Hn.
    apply IH in H as (Hlen' & Hsame & Hstates & Hrest).
    + rewrite length_insert in Hlen'.
      assert (ops' !! k = Some operation') as Ek.
      { rewrite Hsame by lia. apply list_lookup_insert_eq. lia. }
      split; [done|]. split.
      { intros i Hi. rewrite Hsame by lia. apply list_lookup_insert_ne. lia. }
      split.
      { rewrite Hstates, (drop_S _ _ _ Ek). cbn [take fmap list_fmap concat].
        rewrite Hst. by rewrite <- app_assoc. }
      intros i Hi. destruct (decide (i = k)) as [->|Hne]; [|apply Hrest; lia].
      exists node_idx, operation'. split; [done|]. split; [done|]. split.
      * exists node, reg. by repeat split.
      * unfold Init_node_ok. rewrite En.
        destruct (bool_decide (default EmptyString (custom_name reg) = EmptyString));
          by rewrite Eit.
    + intros i Hi. rewrite length_insert in Hi.
      rewrite list_lookup_insert_ne by lia. apply Hfresh. lia.
    + rewrite length_insert. lia.
Qed.

Lemma resize_to_nil {A} n (d : A) : resize_to n d [] = replicate n d.
Proof. unfold resize_to. rewrite take_nil. simpl. f_equal. lia. Qed.

(** [Init] on a new delegate, taken apart. *)
Lemma Registration_init_Done_inv context params op_data d log :
  Registration_init context params = Done (op_data, d) log ->
  compiled_ d = false /\
  tensors_ d = replicate (S (length (tensors context))) None /\
  state_tensors_ d = replicate (S (length (tensors context))) None /\
  Forall (fun idx => 0 <= idx < Z.of_nat (length (tensors context)))
    (input_tensors params) /\
  subgraph_states op_data = concat (Op.states <$> operations_ d) /\
  Forall2 (fun node_idx operation =>
             extracted_from context node_idx operation /\
             Init_node_ok context node_idx = true)
    (nodes_to_replace params) (operations_ d).
Proof.
  unfold Registration_init, Init. intros H.
  inv_bind H as ([d' op_data'] & l1 & l2 & H & Hret & _).
  injection Hret as <- <- _.
  inv_bind H as (u & l3 & l4 & _ & H & _). cbv zeta in H.
  inv_bind H as (subgraph_inputs & l5 & l6 & Ein & H & _).
  inv_bind H as ([operations subgraph_states] & l7 & l8 & Enodes & H & _).
  injection H as <- <- _. simpl.
  rewrite !resize_to_nil, Nat.add_1_r.
  split; [done|]. split; [done|]. split; [done|]. split.
  { apply for_each_Done_steps in Ein. eapply Forall_impl; [exact Ein|].
    intros idx (s1 & s2 & log' & Estep). unfold Init_input in Estep.
    inv_bind Estep as (tensor & ? & ? & Et & _ & _).
    apply defined_Done_inv in Et as [Et _]. by eapply at_Z_Some_range. }
  change (operations_ Delegate_new) with (@nil Op.OperationDataType) in Enodes.
  rewrite resize_to_nil in Enodes.
  apply Init_nodes_Done_inv in Enodes as (Hlen & _ & Hstates & Hrest).
  - rewrite length_replicate in Hlen. split.
    + rewrite Hstates, drop_0, firstn_all2 by lia. done.
    + apply Forall2_same_length_lookup. split; [done|].
      intros i node_idx operation Ei Eo.
      destruct (Hrest i) as (node_idx' & operation' & Ei' & Eo' & Hex & Hok).
      { apply lookup_lt_Some in Ei. lia. }
      rewrite Ei in Ei'. rewrite Eo in Eo'.
      injection Ei' as <-. injection Eo' as <-. done.
  - intros i Hi. rewrite length_replicate in Hi.
    apply lookup_replicate. split; [done | lia].
  - rewrite length_replicate. lia.
Qed.

(** X9.  What the [init] function of the node registration records.  The
    delegate it returns is not compiled and its two tables have one null
    slot per tensor of the context and one more; [operations_] has one
    record per node to replace, in order, with the inputs, outputs, builtin
    code and custom name of the node; and the subgraph states are the
    states of the records, one record after the other. *)
Theorem Registration_init_records context params op_data d log :
  Registration_init context params = Done (op_data, d) log ->
  compiled_ d = false /\
  tensors_ d = replicate (S (length (tensors context))) None /\
  state_tensors_ d = replicate (S (length (tensors context))) None /\
  Forall2 (extracted_from context) (nodes_to_replace params) (operations_ d) /\
  subgraph_states op_data = concat (Op.states <$> operations_ d).
Proof.
  intros (Hc & Ht & Hs & _ & Hstates & Hops)%Registration_init_Done_inv.
  repeat split; try done.
  eapply Forall2_impl; [exact Hops|]. by intros ?? [? _].
Qed.

(** X10.  The [init] function of the node registration returns exactly when the
    input indexes are tensors of the context and every node to replace is
    known to the host, has an entry in the registry consulted for it (the
    custom one when its custom name is not empty, else the builtin one)
    and a parameter blob, if any, of the declared size.  Otherwise it reads
    outside [context->tensors], uses an unset node, lets the exception of
    [std::map::at] escape, or copies past the blob. *)
Theorem Registration_init_defined_iff context params :
  (exists r log, Registration_init context params = Done r log) <->
  Forall (fun idx => 0 <= idx < Z.of_nat (length (tensors context)))
    (input_tensors params) /\
  Forall (fun node_idx => Init_node_ok context node_idx = true)
    (nodes_to_replace params).
Proof.
  split.
  - intros ([op_data d] & log & H).
    apply Registration_init_Done_inv in H as (_ & _ & _ & Hin & _ & Hops).
    split; [done|]. apply Forall_lookup. intros i node_idx Ei.
    destruct (Forall2_lookup_l _ _ _ _ _ Hops Ei) as (operation & _ & _ & Hok).
    done.
  - intros [Hin Hnodes]. unfold Registration_init, Init.
    change (operations_ Delegate_new) with (@nil Op.OperationDataType).
    destruct (Init_nodes_Done context params (length (nodes_to_replace params)) 0
                (resize_to (length (nodes_to_replace params)) Op.empty []) [])
      as (ops' & states' & E); try done.
    { apply resize_to_length. }
    { intros i op _. rewrite resize_to_nil.
      intros [-> _]%lookup_replicate. done. }
    eexists _, _. eapply bind_Done.
    + eapply bind_Done; [done|]. cbv zeta.
      eapply bind_Done_nil; [by apply Init_inputs|].
      eapply bind_Done_nil; [exact E|]. done.
    + done.
Qed.

(** X11.  [SupportedOp] and [Init] disagree on a node whose registration has a
    custom name that is in no registry and a builtin code that is
    registered: [SupportedOp] falls back to the builtin entry and returns
    its decision, while [Init], which looks a custom name up with
    [std::map::at] and has no fallback, returns nothing for any node list
    that holds the node. *)
Theorem SupportedOp_fallback_not_extracted context params node_idx node reg name it :
  (GetNodeAndRegistration context node_idx).2 = Some (node, reg) ->
  custom_name reg = Some name ->
  name <> EmptyString ->
  SupportedBuiltinCustomOps !! name = None ->
  SupportedBuiltinOps !! builtin_code reg = Some it ->
  node_idx ∈ nodes_to_replace params ->
  SupportedOp context node reg = Done (IsSupported it context node reg) [] /\
  forall r log, Registration_init context params <> Done r log.
Proof.
  intros En Ename Hne Ecustom Ebuiltin Hin. split.
  - unfold SupportedOp, SupportedOp_builtin. by rewrite Ename, Ecustom, Ebuiltin.
  - intros [op_data d] log H.
    apply Registration_init_Done_inv in H as (_ & _ & _ & _ & _ & Hops).
    apply list_elem_of_lookup in Hin as [i Ei].
    destruct (Forall2_lookup_l _ _ _ _ _ Hops Ei) as (operation & _ & _ & Hok).
    unfold Init_node_ok in Hok. rewrite En, Ename in Hok. simpl in Hok.
    rewrite bool_decide_eq_false_2 in Hok by done. by rewrite Ecustom in Hok.
Qed.

(** ** Execution driver: what a completed invocation has used and changed *)

Lemma set_data_raw_same tensor : set_data_raw tensor (data_raw tensor) = tensor.
Proof. by destruct tensor. Qed.

Lemma set_data_raw_twice tensor data data' :
  set_data_raw (set_data_raw tensor data) data' = set_data_raw tensor data'.
Proof. done. Qed.

Lemma same_but_data_refl written context : same_but_data written context context.
Proof.
  repeat split; try done. intros i tensor E. exists (data_raw tensor).
  by rewrite set_data_raw_same.
Qed.

Lemma same_but_data_trans w1 w2 context context' context'' :
  same_but_data w1 context context' ->
  same_but_data w2 context' context'' ->
  same_but_data (w1 ++ w2) context context''.
Proof.
  intros (Hp & Hn & Hr & Hlen & Ht) (Hp' & Hn' & Hr' & Hlen' & Ht').
  split; [by rewrite Hp'|]. split; [by rewrite Hn'|]. split; [by rewrite Hr'|].
  split; [by rewrite Hlen'|]. intros i tensor E.
  destruct (Ht i tensor E) as (data & E' & Hdata).
  destruct (Ht' i _ E') as (data' & E'' & Hdata').
  exists data'. rewrite set_data_raw_twice in E''. split; [done|].
  intros Hi. rewrite elem_of_app in Hi.
  rewrite Hdata' by (intros ?; apply Hi; by right). simpl.
  apply Hdata. intros ?. apply Hi. by left.
Qed.

Lemma infered_tensor_Done_inv d src h' log :
  infered_tensor d src = Done h' log ->
  exists h, src = Some h /\ (layout_infered_ d).2 !! h = Some h'.
Proof.
  unfold infered_tensor. intros [E _]%defined_Done_inv.
  destruct src as [h|]; [|done]. by exists h.
Qed.

Lemma Invoke_copy_back_Done_inv d table what failure device idx context context' log :
  Invoke_copy_back d table what failure device idx context = Done context' log ->
  copy_ready d table context idx /\ same_but_data [idx] context context'.
Proof.
  unfold Invoke_copy_back. intros H.
  inv_bind H as (tf_tensor & l1 & l2 & Et & H & _).
  apply defined_Done_inv in Et as [Et _].
  inv_bind H as ([] & l3 & l4 & _ & H & _).
  inv_bind H as (src & l5 & l6 & Es & H & _).
  apply defined_Done_inv in Es as [Es _].
  inv_bind H as ([] & l7 & l8 & _ & H & _).
  inv_bind H as (infered & l9 & l10 & Ei & H & _).
  apply infered_tensor_Done_inv in Ei as (h & -> & Ei).
  injection H as <-. pose proof (at_Z_Some_range _ _ _ Et) as Hr.
  split; [split; [done | by exists h, infered]|].
  rewrite at_Z_lookup in Et by lia.
  repeat split; try done.
  - simpl. by rewrite length_insert.
  - intros i tensor E. simpl.
    destruct (decide (i = Z.to_nat idx)) as [->|Hne].
    + rewrite list_lookup_insert_eq by lia.
      assert (tensor = tf_tensor) as -> by congruence.
      eexists. split; [done|]. intros Hi. exfalso. apply Hi.
      rewrite Z2Nat.id by lia. apply list_elem_of_singleton. done.
    + rewrite list_lookup_insert_ne by done. exists (data_raw tensor).
      by rewrite set_data_raw_same.
Qed.

Lemma copy_ready_same_size d table context context' idx :
  length (tensors context') = length (tensors context) ->
  copy_ready d table context' idx -> copy_ready d table context idx.
Proof. intros Hlen [Hr Hh]. split; [lia | done]. Qed.

Lemma Invoke_copy_back_loop d table what failure device idxs :
  forall context context' log,
  for_each (Invoke_copy_back d table what failure device) idxs context
    = Done context' log ->
  Forall (copy_ready d table context) idxs /\ same_but_data idxs context context'.
Proof.
  induction idxs as [|idx idxs IH]; intros context context' log H.
  - injection H as <- <-. split; [constructor | apply same_but_data_refl].
  - cbn [for_each] in H. inv_bind H as (context1 & l1 & l2 & E & H & _).
    apply Invoke_copy_back_Done_inv in E as [Hidx Hsame].
    apply IH in H as [Hidxs Hsame']. split.
    + constructor; [done|]. eapply Forall_impl; [exact Hidxs|].
      intros i. apply copy_ready_same_size. apply Hsame.
    + by apply (same_but_data_trans [idx] idxs _ context1).
Qed.

Lemma Invoke_copy_input_loop d context idxs : forall device device' log,
  for_each (Invoke_copy_input d context) idxs device = Done device' log ->
  Forall (copy_ready d (tensors_ d) context) idxs.
Proof.
  induction idxs as [|idx idxs IH]; intros device device' log H; [constructor|].
  cbn [for_each] in H. inv_bind H as (device1 & l1 & l2 & E & H & _).
  constructor; [|by eapply IH]. unfold Invoke_copy_input in E.
  inv_bind E as (tf_tensor & l3 & l4 & Et & E & _).
  apply defined_Done_inv in Et as [Et _].
  inv_bind E as ([] & l5 & l6 & _ & E & _).
  inv_bind E as (src & l7 & l8 & Es & E & _).
  apply defined_Done_inv in Es as [Es _].
  inv_bind E as ([] & l9 & l10 & _ & E & _).
  inv_bind E as (infered & l11 & l12 & Ei & E & _).
  apply infered_tensor_Done_inv in Ei as (h & -> & Ei).
  split; [by eapply at_Z_Some_range | by exists h, infered].
Qed.

(** The two ways [Delegate::Invoke] gets to the call of [Run] or returns
    before it. *)
Lemma Invoke_before_run_Done_inv op_data m node r log :
  Invoke_before_run op_data m node = Done r log ->
  match r with
  | inl (status, m1) =>
      status = kTfLiteDelegateError /\ compiled_ (m_delegate m) = false /\
      m_context m1 = m_context m
  | inr m1 =>
      m_context m1 = m_context m /\
      compiled_ (m_delegate m1) = true /\
      (compiled_ (m_delegate m) = true -> m_delegate m1 = m_delegate m) /\
      Forall (copy_ready (m_delegate m1) (tensors_ (m_delegate m1)) (m_context m))
        (subgraph_inputs op_data)
  end.
Proof.
  unfold Invoke_before_run. intros H.
  inv_bind H as ([] & l1 & l2 & _ & H & _).
  inv_bind H as ([returned d] & l3 & l4 & Ec & H & _).
  assert (match returned with
          | Some status =>
              status = kTfLiteDelegateError /\ compiled_ (m_delegate m) = false
          | None => compiled_ d = true /\
                    (compiled_ (m_delegate m) = true -> d = m_delegate m)
          end) as Hd.
  { destruct (compiled_ (m_delegate m)) eqn:Ecompiled; simpl in Ec.
    - by injection Ec as <- <-.
    - unfold Invoke_compile in Ec.
      inv_bind Ec as ([[graph tensors] state_tensors] & l5 & l6 & _ & Ec & _).
      inv_bind Ec as ([] & l7 & l8 & _ & Ec & _).
      destruct (Compile _) eqn:Ecompile; simpl in Ec.
      + injection Ec as <- <-. by split.
      + discriminate. }
  destruct returned as [status|].
  - injection H as <-. by destruct Hd.
  - inv_bind H as (device & l5 & l6 & Ei & H & _). injection H as <-.
    destruct Hd as [Hcompiled Hsame]. simpl. repeat split; try done.
    by eapply Invoke_copy_input_loop.
Qed.

Lemma Invoke_run_Done_inv op_data m status m' log :
  Invoke_run op_data m = Done (status, m') log ->
  status = kTfLiteOk /\ m_delegate m' = m_delegate m /\
  Forall (copy_ready (m_delegate m) (tensors_ (m_delegate m)) (m_context m))
    (subgraph_outputs op_data) /\
  Forall (copy_ready (m_delegate m) (state_tensors_ (m_delegate m)) (m_context m))
    (subgraph_states op_data) /\
  same_but_data (subgraph_outputs op_data ++ subgraph_states op_data)
    (m_context m) (m_context m').
Proof.
  unfold Invoke_run. intros H.
  inv_bind H as ([] & l1 & l2 & _ & H & _).
  destruct (Run _ _) as [ran device].
  inv_bind H as ([] & l3 & l4 & _ & H & _).
  inv_bind H as (context1 & l5 & l6 & Eo & H & _).
  inv_bind H as (context2 & l7 & l8 & Es & H & _).
  injection H as <- <-. simpl.
  apply Invoke_copy_back_loop in Eo as [Ho Hsame1].
  apply Invoke_copy_back_loop in Es as [Hs Hsame2].
  repeat split; try done.
  - eapply Forall_impl; [exact Hs|]. intros i.
    apply copy_ready_same_size. apply Hsame1.
  - by eapply same_but_data_trans.
  - by eapply same_but_data_trans.
  - by eapply same_but_data_trans.
  - destruct (same_but_data_trans _ _ _ _ _ Hsame1 Hsame2) as (_ & _ & _ & Hl & _).
    done.
  - by eapply same_but_data_trans.
Qed.

(** X14.  An invocation of a delegate that is compiled builds nothing: when it
    returns, it returns [kTfLiteOk] and the delegate is as before -- the
    same graph, the same tables, the same compiled graph and tensor map. *)
Theorem Invoke_compiled_keeps_delegate op_data m node status m' log :
  compiled_ (m_delegate m) = true ->
  Invoke op_data m node = Done (status, m') log ->
  status = kTfLiteOk /\ m_delegate m' = m_delegate m.
Proof.
  intros Hcompiled H. unfold Invoke in H.
  inv_bind H as (r & l1 & l2 & Eb & H & _).
  apply Invoke_before_run_Done_inv in Eb.
  destruct r as [[status1 m1]|m1].
  - destruct Eb as (_ & Hnot & _). congruence.
  - destruct Eb as (_ & _ & Hsame & _).
    apply Invoke_run_Done_inv in H as (-> & Hd & _). split; [done|].
    rewrite Hd. by apply Hsame.
Qed.

(** X15.  What an invocation that returns [kTfLiteOk] has relied on.  The
    delegate is compiled afterwards, and every index of the subgraph
    inputs, outputs and states is the index of a host tensor whose slot --
    in [tensors_] for inputs and outputs, in [state_tensors_] for states --
    holds a tensor that the layout inference has mapped.  The copy loops
    have no guard for [-1], unlike the loops of the build: with any other
    index list the invocation reads outside [context->tensors] or the
    tables, or dereferences a null tensor. *)
Theorem Invoke_ok_indexes op_data m node m' log :
  Invoke op_data m node = Done (kTfLiteOk, m') log ->
  let d := m_delegate m' in
  compiled_ d = true /\
  Forall (copy_ready d (tensors_ d) (m_context m))
    (subgraph_inputs op_data ++ subgraph_outputs op_data) /\
  Forall (copy_ready d (state_tensors_ d) (m_context m)) (subgraph_states op_data).
Proof.
  intros H. unfold Invoke in H.
  inv_bind H as (r & l1 & l2 & Eb & H & _).
  apply Invoke_before_run_Done_inv in Eb.
  destruct r as [[status1 m1]|m1].
  - destruct Eb as (Hstatus & _). injection H as -> <-. discriminate.
  - destruct Eb as (Hcontext & Hcompiled & _ & Hinputs).
    apply Invoke_run_Done_inv in H as (_ & Hd & Houtputs & Hstates & _).
    cbv zeta. rewrite Hd, <- Hcontext. split; [done|]. split; [|done].
    apply Forall_app. split; [|done]. by rewrite Hcontext.
Qed.

(** X16.  The host memory an invocation writes.  When [Delegate::Invoke]
    returns, whatever its status, the context has the tensors it had, each
    with the type, shape, quantization, allocation and name it had; only
    [data.raw] of the tensors at the subgraph outputs and states can
    differ, and the data of every other tensor is as before: the input
    copy only reads.  (The buffers of different tensors are taken to be
    disjoint, as everywhere in this embedding.) *)
Theorem Invoke_writes_only_results op_data m node status m' log :
  Invoke op_data m node = Done (status, m') log ->
  same_but_data (subgraph_outputs op_data ++ subgraph_states op_data)
    (m_context m) (m_context m').
Proof.
  intros H. unfold Invoke in H.
  inv_bind H as (r & l1 & l2 & Eb & H & _).
  apply Invoke_before_run_Done_inv in Eb.
  destruct r as [[status1 m1]|m1].
  - destruct Eb as (_ & _ & Hcontext). injection H as -> <-.
    rewrite Hcontext. apply same_but_data_refl.
  - destruct Eb as (Hcontext & _).
    apply Invoke_run_Done_inv in H as (_ & _ & _ & _ & Hsame).
    by rewrite Hcontext in Hsame.
Qed.

(** ** The build of the graph *)

Lemma create_loop_resolved context attr_of idxs graph table graph' table' log :
  for_each (create_if_null context attr_of) idxs (graph, table)
    = Done (graph', table') log ->
  resolved table' idxs.
Proof.
  rewrite create_all_loop. intros (_ & _ & _ & Hres)%create_all_Done_inv.
  intros idx Hin Hne. apply Hres; [|done].
  rewrite <- list_fmap_compose. simpl. by rewrite list_fmap_id.
Qed.

Lemma resolved_kept table table' idxs :
  (forall j h, table !! j = Some (Some h) -> table' !! j = Some (Some h)) ->
  resolved table idxs -> resolved table' idxs.
Proof.
  intros Hkept Hres idx Hin Hne. destruct (Hres idx Hin Hne) as [h E].
  exists h. by eapply kept_at_Z.
Qed.

Lemma resolved_app table idxs1 idxs2 :
  resolved table idxs1 -> resolved table idxs2 -> resolved table (idxs1 ++ idxs2).
Proof.
  intros H1 H2 idx [Hin|Hin]%elem_of_app Hne; [by apply H1 | by apply H2].
Qed.

Lemma Invoke_create_op_resolved context op_info graph tensors state_tensors
    graph' tensors' state_tensors' log :
  Invoke_create_op context op_info (graph, tensors, state_tensors)
    = Done (graph', tensors', state_tensors') log ->
  resolved tensors' (Op.inputs op_info ++ Op.outputs op_info) /\
  resolved state_tensors' (Op.states op_info).
Proof.
  unfold Invoke_create_op. intros H.
  inv_bind H as ([graph1 tensors1] & l1 & l2 & E1 & H & _).
  inv_bind H as ([graph2 state_tensors1] & l3 & l4 & E2 & H & _).
  inv_bind H as (inputs_tensors & l5 & l6 & _ & H & _).
  inv_bind H as (outputs_tensors & l7 & l8 & _ & H & _).
  inv_bind H as (states_tensors & l9 & l10 & _ & H & _).
  inv_bind H as (it & l11 & l12 & _ & H & _).
  injection H as <- <- <- <-.
  apply create_loop_resolved in E1. apply create_loop_resolved in E2. done.
Qed.

Lemma Invoke_create_ops_resolved context operations :
  forall graph tensors state_tensors graph' tensors' state_tensors' log,
  for_each (Invoke_create_op context) operations (graph, tensors, state_tensors)
    = Done (graph', tensors', state_tensors') log ->
  length state_tensors' = length state_tensors /\
  (forall j h, state_tensors !! j = Some (Some h) ->
               state_tensors' !! j = Some (Some h)) /\
  Forall (fun op_info =>
            resolved tensors' (Op.inputs op_info ++ Op.outputs op_info) /\
            resolved state_tensors' (Op.states op_info))
    operations.
Proof.
  induction operations as [|op_info operations IH];
    intros graph tensors state_tensors graph' tensors' state_tensors' log H.
  - injection H as <- <- <- <-. split; [done|]. split; [done | constructor].
  - cbn [for_each] in H.
    inv_bind H as ([[graph1 tensors1] state_tensors1] & l1 & l2 & E & H & _).
    pose proof (Invoke_create_op_resolved _ _ _ _ _ _ _ _ _ E) as [Hres Hres'].
    apply Invoke_create_op_kept in E as (_ & _ & Hlen & Hkept).
    pose proof (Invoke_create_ops_kept _ _ _ _ _ _ _ _ _ H) as [_ Hkept1].
    apply IH in H as (Hlen' & Hkept' & Hrest).
    split; [by rewrite Hlen'|]. split; [by intros j h Ej; apply Hkept', Hkept|].
    constructor; [|done]. split; by eapply resolved_kept.
Qed.

(** X12.  What the build leaves in the two tables.  They keep their sizes; the
    last slot of [tensors_] holds the placeholder, the first tensor of the
    new graph; every other slot that held a tensor before the build holds
    the same one after it, for the build starts a new graph without
    clearing the tables; and every index other than [-1] of the subgraph
    inputs and outputs and of the inputs and outputs of each operation has
    a tensor in [tensors_], every state index of each operation one in
    [state_tensors_]. *)
Theorem Invoke_build_graph_resolves op_data d context graph tensors state_tensors log :
  Z.of_nat (length (tensors_ d)) < 2 ^ 63 ->
  Invoke_build_graph op_data d context = Done (graph, tensors, state_tensors) log ->
  length tensors = length (tensors_ d) /\
  length state_tensors = length (state_tensors_ d) /\
  last tensors = Some (Some 0%nat) /\
  (forall j h, (S j < length (tensors_ d))%nat ->
     tensors_ d !! j = Some (Some h) -> tensors !! j = Some (Some h)) /\
  (forall j h, state_tensors_ d !! j = Some (Some h) ->
     state_tensors !! j = Some (Some h)) /\
  resolved tensors (subgraph_inputs op_data ++ subgraph_outputs op_data) /\
  Forall (fun op_info =>
            resolved tensors (Op.inputs op_info ++ Op.outputs op_info) /\
            resolved state_tensors (Op.states op_info))
    (operations_ d).
Proof.
  intros Hsize H.
  destruct (Invoke_build_graph_placeholder _ _ _ _ _ _ _ Hsize H) as [Hlen Hlast].
  unfold Invoke_build_graph in H. cbn [Graph_CreateTensorPlaceHolder
    Graph_empty g_tensors length] in H.
  inv_bind H as (tensors0 & l1 & l2 & E0 & H & _).
  inv_bind H as ([graph1 tensors1] & l3 & l4 & E1 & H & _).
  inv_bind H as ([graph2 tensors2] & l5 & l6 & E2 & H & _).
  apply defined_Done_inv in E0 as [E0 _].
  apply bind_Some in E0 as (entry & Elast & [= <-]).
  apply at_Z_Some_range in Elast.
  assert (to_size_t (Z.of_nat (length (tensors_ d)) - 1)
          = Z.of_nat (length (tensors_ d)) - 1) as Hlast_idx.
  { destruct (decide (length (tensors_ d) = 0%nat)) as [Hz|Hnz].
    - rewrite Hz in Elast. simpl in Elast. lia.
    - apply to_size_t_id. lia. }
  rewrite Hlast_idx in *.
  pose proof (create_loop_resolved _ _ _ _ _ _ _ _ E1) as Hres1.
  pose proof (create_loop_resolved _ _ _ _ _ _ _ _ E2) as Hres2.
  apply create_loop_kept in E1 as [Hlen1 Hkept1].
  apply create_loop_kept in E2 as [Hlen2 Hkept2].
  pose proof (Invoke_create_ops_kept _ _ _ _ _ _ _ _ _ H) as [Hlen3 Hkept3].
  apply Invoke_create_ops_resolved in H as (Hlen' & Hkept' & Hops).
  split; [done|]. split; [done|]. split; [done|]. split; [|split; [done|]].
  - intros j h Hj Ej. apply Hkept3, Hkept2, Hkept1.
    rewrite list_lookup_insert_ne by lia. done.
  - split; [|done]. apply resolved_app.
    + eapply resolved_kept; [|exact Hres1]. intros j h Ej. by apply Hkept3, Hkept2.
    + by eapply resolved_kept.
Qed.

(** ** From the subgraph extraction to the build *)

Lemma CreateTensor_Done graph tensor attr :
  quantization_ok tensor = true ->
  exists graph' created log,
    CreateTensor graph tensor attr [] = Done (graph', created) log.
Proof.
  intros Hq. unfold CreateTensor.
  destruct (CreateTensorSpec_Done tensor [] attr Hq eq_refl) as (datatype & log & ->).
  destruct attr; simpl;
    match goal with
    | |- context [Graph_CreateTensor ?g ?s ?data] =>
        destruct (Graph_CreateTensor g s data) as [graph' created]
    end; by eexists _, _, _.
Qed.

Lemma create_if_null_Done context attr_of idx graph table :
  operand_ok context idx = true ->
  (length (tensors context) <= length table)%nat ->
  exists graph' table' log,
    create_if_null context attr_of idx (graph, table) = Done (graph', table') log /\
    length table' = length table.
Proof.
  intros Hok Hlen. unfold create_if_null. case_decide as Hidx; [|by eexists _, _, _].
  unfold operand_ok in Hok. rewrite bool_decide_eq_false_2 in Hok by lia.
  simpl in Hok.
  destruct (at_Z (tensors context) idx) as [tensor|] eqn:Et; [|done].
  pose proof (at_Z_Some_range _ _ _ Et) as Hr.
  destruct (at_Z_is_Some table idx) as [entry Ee]; [lia|].
  rewrite Ee. simpl. destruct entry as [h|]; [by eexists _, _, _|].
  destruct (CreateTensor_Done graph tensor (attr_of tensor) Hok)
    as (graph' & created & log & Ec).
  rewrite Ec. simpl. rewrite store_at_Done by lia. simpl.
  eexists _, _, _. split; [done|]. by rewrite length_insert.
Qed.

Lemma create_loop_Done context attr_of idxs : forall graph table,
  Forall (fun idx => operand_ok context idx = true) idxs ->
  (length (tensors context) <= length table)%nat ->
  exists graph' table' log,
    for_each (create_if_null context attr_of) idxs (graph, table)
      = Done (graph', table') log /\
    length table' = length table.
Proof.
  induction idxs as [|idx idxs IH]; intros graph table Hok Hlen.
  - by eexists _, _, _.
  - apply Forall_cons in Hok as [Hidx Hidxs].
    destruct (create_if_null_Done context attr_of idx graph table Hidx Hlen)
      as (graph1 & table1 & log1 & E1 & Hlen1).
    destruct (IH graph1 table1 Hidxs) as (graph2 & table2 & log2 & E2 & Hlen2);
      [lia|].
    exists graph2, table2, (log1 ++ log2). split; [|lia].
    cbn [for_each]. by eapply bind_Done.
Qed.

Lemma MapIndexesToTensors_Done (tensors : list (option Handle)) indexes :
  tensors <> [] -> exists out, MapIndexesToTensors tensors indexes = Done out [].
Proof.
  intros Hne. assert (0 < Z.of_nat (length tensors)) as Hs.
  { destruct tensors; [done | simpl; lia]. }
  unfold MapIndexesToTensors.
  induction indexes as [|index indexes (out & E)]; [by exists []|].
  pose proof (wrapped_index_range (Z.of_nat (length tensors)) index Hs) as Hr.
  destruct (at_Z_is_Some tensors (wrapped_index (Z.of_nat (length tensors)) index))
    as [t Et]; [lia|].
  exists (t :: out). cbn [transform]. eapply bind_Done_nil.
  - eapply bind_Done_nil; [by rewrite bool_decide_eq_true_2 by lia|].
    by rewrite Et.
  - eapply bind_Done_nil; [exact E | done].
Qed.

Lemma Invoke_create_op_Done context op_info graph table state_tensors :
  Forall (fun idx => operand_ok context idx = true)
    (Op.inputs op_info ++ Op.outputs op_info ++ Op.states op_info) ->
  (length (tensors context) < length table)%nat ->
  (length (tensors context) < length state_tensors)%nat ->
  is_Some (if bool_decide (Op.custom_name op_info <> EmptyString)
           then SupportedBuiltinCustomOps !! Op.custom_name op_info
           else SupportedBuiltinOps !! Op.builtin_code op_info) ->
  exists graph' tensors' state_tensors' log,
    Invoke_create_op context op_info (graph, table, state_tensors)
      = Done (graph', tensors', state_tensors') log /\
    length tensors' = length table /\
    length state_tensors' = length state_tensors.
Proof.
  intros Hok Hlen Hlen' [it Eit]. unfold Invoke_create_op.
  rewrite app_assoc in Hok. apply Forall_app in Hok as [Hio Hstates].
  destruct (create_loop_Done context operand_attr
              (copy_back (Op.outputs op_info) (copy_back (Op.inputs op_info) []))
              graph table)
    as (graph1 & tensors1 & log1 & E1 & Hlen1); [done | lia |].
  destruct (create_loop_Done context (fun _ => OUTPUT) (Op.states op_info)
              graph1 state_tensors)
    as (graph2 & state_tensors1 & log2 & E2 & Hlen2); [done | lia |].
  destruct (MapIndexesToTensors_Done tensors1 (Op.inputs op_info)) as [ins Eins].
  { intros ->. simpl in Hlen1. lia. }
  destruct (MapIndexesToTensors_Done tensors1 (Op.outputs op_info)) as [outs Eouts].
  { intros ->. simpl in Hlen1. lia. }
  destruct (MapIndexesToTensors_Done state_tensors1 (Op.states op_info))
    as [sts Ests].
  { intros ->. simpl in Hlen2. lia. }
  eexists _, _, _, _. split; [|split; [exact Hlen1 | exact Hlen2]].
  eapply bind_Done; [exact E1|]. cbv beta iota.
  eapply bind_Done; [exact E2|]. cbv beta iota.
  eapply bind_Done_nil; [exact Eins|].
  eapply bind_Done_nil; [exact Eouts|].
  eapply bind_Done_nil; [exact Ests|].
  eapply bind_Done_nil; [|done].
  destruct (bool_decide _); by rewrite Eit.
Qed.

Lemma Invoke_create_ops_Done context operations : forall graph table state_tensors,
  Forall (fun op_info =>
            Forall (fun idx => operand_ok context idx = true)
              (Op.inputs op_info ++ Op.outputs op_info ++ Op.states op_info) /\
            is_Some (if bool_decide (Op.custom_name op_info <> EmptyString)
                     then SupportedBuiltinCustomOps !! Op.custom_name op_info
                     else SupportedBuiltinOps !! Op.builtin_code op_info))
    operations ->
  (length (tensors context) < length table)%nat ->
  (length (tensors context) < length state_tensors)%nat ->
  exists r log,
    for_each (Invoke_create_op context) operations (graph, table, state_tensors)
      = Done r log.
Proof.
  induction operations as [|op_info operations IH];
    intros graph table state_tensors Hops Hlen Hlen'.
  - by eexists _, _.
  - apply Forall_cons in Hops as [[Hok Hit] Hops].
    destruct (Invoke_create_op_Done context op_info graph table state_tensors
                Hok Hlen Hlen' Hit)
      as (graph1 & tensors1 & state_tensors1 & log1 & E1 & Hlen1 & Hlen1').
    destruct (IH graph1 tensors1 state_tensors1 Hops) as (r & log2 & E2); [lia..|].
    exists r, (log1 ++ log2). cbn [for_each]. by eapply bind_Done.
Qed.

(** X13.  The extraction and the build fit together.  On the delegate and the
    subgraph record that the [init] function of the registration returns,
    the build of the graph completes whenever every index it visits -- the
    subgraph inputs and outputs, and the inputs, outputs and states of the
    recorded operations -- is [-1] or the index of a host tensor with well
    formed quantization metadata: the tables are large enough for the
    placeholder and for every such index, and every operation finds its
    catalogue entry again. *)
Theorem Init_then_build context params op_data d log :
  Registration_init context params = Done (op_data, d) log ->
  Forall (fun idx => operand_ok context idx = true)
    (subgraph_inputs op_data ++ subgraph_outputs op_data) ->
  Forall (fun op_info =>
            Forall (fun idx => operand_ok context idx = true)
              (Op.inputs op_info ++ Op.outputs op_info ++ Op.states op_info))
    (operations_ d) ->
  exists graph tensors state_tensors log',
    Invoke_build_graph op_data d context
      = Done (graph, tensors, state_tensors) log'.
Proof.
  intros (_ & Ht & Hs & _ & _ & Hnodes)%Registration_init_Done_inv Hio Hops.
  apply Forall_app in Hio as [Hin Hout].
  unfold Invoke_build_graph. cbn [Graph_CreateTensorPlaceHolder Graph_empty
    g_tensors length]. rewrite Ht, Hs.
  set (n := length (tensors context)).
  set (table := replicate (S n) None : list (option Handle)).
  assert (length table = S n) as Hlen by apply length_replicate.
  set (last := to_size_t (Z.of_nat (length table) - 1)).
  assert (0 <= last < Z.of_nat (length table)) as Hlast.
  { unfold last, to_size_t, size_t_bits.
    pose proof (Z.mod_pos_bound (Z.of_nat (length table) - 1) (2 ^ 64) ltac:(lia)).
    pose proof (Z.mod_le (Z.of_nat (length table) - 1) (2 ^ 64) ltac:(lia)
                  ltac:(lia)).
    lia. }
  destruct (at_Z_is_Some table last Hlast) as [entry Eentry].
  destruct (create_loop_Done context (fun _ => INPUT) (subgraph_inputs op_data)
              {| g_tensors := [VxTensor_placeholder]; g_ops := [] |}
              (<[Z.to_nat last := Some 0%nat]> table))
    as (graph1 & tensors1 & log1 & E1 & Hlen1); [done | |].
  { rewrite length_insert. fold n. lia. }
  rewrite length_insert in Hlen1.
  destruct (create_loop_Done context (fun _ => OUTPUT) (subgraph_outputs op_data)
              graph1 tensors1)
    as (graph2 & tensors2 & log2 & E2 & Hlen2); [done | fold n; lia |].
  destruct (Invoke_create_ops_Done context (operations_ d) graph2 tensors2 table)
    as ([[graph3 tensors3] state_tensors3] & log3 & E3); [| fold n; lia..|].
  { apply Forall_lookup. intros i op_info Ei. split.
    - by eapply Forall_lookup_1 in Hops.
    - destruct (Forall2_lookup_r _ _ _ _ _ Hnodes Ei)
        as (node_idx & _ & (node & reg & En & _ & _ & Ecode & Ename) & Hok).
      unfold Init_node_ok in Hok. rewrite En in Hok. rewrite Ename, Ecode.
      destruct (bool_decide (default EmptyString (custom_name reg) = EmptyString))
        eqn:Ecustom.
      + apply bool_decide_eq_true in Ecustom.
        rewrite bool_decide_eq_false_2 by (intros Hn; by apply Hn).
        by destruct (SupportedBuiltinOps !! builtin_code reg).
      + apply bool_decide_eq_false in Ecustom.
        rewrite bool_decide_eq_true_2 by done.
        by destruct (SupportedBuiltinCustomOps !! _). }
  exists graph3, tensors3, state_tensors3, (log1 ++ log2 ++ log3).
  eapply bind_Done_nil.
  { fold last. by rewrite Eentry. }
  eapply bind_Done; [exact E1|]. cbv beta iota.
  eapply bind_Done; [exact E2|]. cbv beta iota. exact E3.
Qed.

(** ** The delegate handle *)

(** X17.  [VxDelegateCreate] hands out the one delegate of the process and
    [VxDelegateDelete] does not reset it.  A second call of
    [VxDelegateCreate], whatever its options, returns the pointer of the
    first and allocates nothing.  Once [VxDelegateDelete] has deleted the
    object, [VxDelegateCreate] still returns the same pointer, which now
    points to no object, and deleting it again is undefined: the
    function-local [static] keeps the address, and the [nullptr] that
    [VxDelegateDelete] assigns goes to its own parameter. *)
Theorem VxDelegate_shared_then_dangling {Options : Type} (options options' : Options)
    (store store1 store2 : DelegateStore) (delegate : nat) log :
  VxDelegateCreate options store = (delegate, store1) ->
  VxDelegateDelete (Some delegate) store1 = Done store2 log ->
  VxDelegateCreate options' store1 = (delegate, store1) /\
  is_Some (live store1 !! delegate) /\
  live store2 !! delegate = None /\
  VxDelegateCreate options' store2 = (delegate, store2) /\
  VxDelegateDelete (Some delegate) store2 = Undefined.
Proof.
  unfold VxDelegateCreate, VxDelegate. intros Hcreate Hdelete.
  assert (static_delegate store1 = Some delegate) as Hstatic.
  { destruct (static_delegate store) as [p|] eqn:E.
    - by injection Hcreate as <- <-.
    - simpl in Hcreate. by injection Hcreate as <- <-. }
  unfold VxDelegateDelete in Hdelete.
  inv_bind Hdelete as (object & l1 & l2 & Elive & Hdelete & _).
  apply defined_Done_inv in Elive as [Elive _]. injection Hdelete as <-.
  simpl. rewrite Hstatic, Elive. repeat split; try done.
  - apply lookup_delete_eq.
  - unfold VxDelegateDelete. simpl. by rewrite lookup_delete_eq.
Qed.

(** ** Index resolution in the build *)





End Delegate.

(** * The channel axis under the axis conversion of the spec *)

(** C4.  With the axis conversion of the spec, [CreateTensorSpec] gives
    the spec no quantization when the host tensor has none; the asymmetric
    quantization of the scale and the zero point when the affine
    parameters hold one scale; and, when they hold more than one scale,
    the per-channel quantization, with all scales and zero points, whose
    channel axis is the host [quantized_dimension] counted from the other
    end: [rank - 1 - quantized_dimension], at the rank after a scalar is
    made a vector.  The axis is always this converted one; it has the
    number of the host axis only for the middle axis of an odd rank.
    Without a permutation the conversion is the rule of the shape: at the
    channel axis of the spec the accelerator shape has the size that the
    host shape has at the host channel axis.  A permutation changes the
    shape and not the axis. *)
Theorem CreateTensorSpec_quantization tensor perm attr :
  perm_ok tensor perm = true ->
  quantization_ok tensor = true ->
  exists spec log,
    CreateTensorSpec utils.ConvertAxis tensor perm attr = Done spec log /\
    match q_type (quantization tensor), q_params (quantization tensor) with
    | kTfLiteNoQuantization, _ => quantization_ spec = Quantization_default
    | kTfLiteAffineQuantization, Some params =>
        (forall s, scale params = [s] ->
           exists z, zero_point params !! 0%nat = Some z /\
             quantization_ spec = Quantization_scalar ASYMMETRIC s z) /\
        ((1 < length (scale params))%nat ->
           let host_axis := quantized_dimension params in
           let axis := vx_rank tensor - 1 - host_axis in
           quantization_ spec =
             Quantization_channel SYMMETRIC_PER_CHANNEL axis
               (scale params) (zero_point params) /\
           (axis = host_axis <-> 2 * host_axis = vx_rank tensor - 1) /\
           (perm = [] -> 0 <= host_axis ->
            forall size, dims tensor !! Z.to_nat host_axis = Some size ->
              shape_ spec !! Z.to_nat axis = Some (to_uint32 size)))
    | kTfLiteAffineQuantization, None => False
    end.
Proof.
  intros Hperm Hq.
  destruct (CreateTensorSpec_Done utils.ConvertAxis tensor perm attr Hq Hperm)
    as (datatype & log & E).
  eexists _, log. split; [exact E|]. simpl.
  unfold quantization_of. unfold quantization_ok in Hq.
  destruct (q_type (quantization tensor)); [done|].
  destruct (q_params (quantization tensor)) as [params|]; [|done].
  split.
  - intros s Hs. rewrite Hs in *. simpl in Hq.
    destruct (zero_point params) as [|z zs]; [done|]. by exists z.
  - intros Hscales. cbv zeta. split; [|split].
    + destruct (scale params) as [|s [|s' ss]]; simpl in Hscales; [lia..|done].
    + lia.
    + intros -> Haxis size Hsize. unfold whcn_shape_of, vx_rank, TfLiteTensorDims.
      pose proof (lookup_lt_Some _ _ _ Hsize) as Hlt.
      destruct (dims tensor) as [|d ds] eqn:Edims; [done|].
      rewrite <- Edims in *.
      assert (map to_uint32 (dims tensor) <> []) as Hne by (by rewrite Edims).
      destruct (map to_uint32 (dims tensor)) as [|d' ds'] eqn:Emap; [done|].
      rewrite <- Emap. rewrite reverse_lookup by (rewrite length_map; lia).
      rewrite length_map.
      replace (length (dims tensor)
               - S (Z.to_nat (Z.of_nat (length (dims tensor)) - 1
                              - quantized_dimension params)))%nat
        with (Z.to_nat (quantized_dimension params)) by lia.
      change (map to_uint32 (dims tensor)) with (to_uint32 <$> dims tensor).
      by rewrite list_lookup_fmap, Hsize.
Qed.

(** * Examples *)

(** The axis counted from the other end, in the place of [ConvertAxis]. *)
Definition ex_ConvertAxis (axis dim_num : Z) : Z := dim_num - 1 - axis.

Definition no_quantization : TfLiteQuantization :=
  {| q_type := kTfLiteNoQuantization; q_params := None |}.

(** A float tensor of host shape [[N; H; W; C] = [2; 3; 4; 5]]. *)
Definition ex_nhwc : TfLiteTensor :=
  {| type := kTfLiteFloat32; dims := [2; 3; 4; 5];
     quantization := no_quantization; allocation_type := kTfLiteArenaRw;
     is_variable := false; data_raw := None; bytes := 480; name := "nhwc" |}.

Definition ex_scalar : TfLiteTensor :=
  {| type := kTfLiteFloat32; dims := [];
     quantization := no_quantization; allocation_type := kTfLiteArenaRw;
     is_variable := false; data_raw := None; bytes := 4; name := "scalar" |}.

(** A tensor quantized with one scale and one zero point. *)
Definition ex_per_tensor : TfLiteTensor :=
  {| type := kTfLiteUInt8; dims := [2; 3];
     quantization :=
       {| q_type := kTfLiteAffineQuantization;
          q_params := Some {| scale := [1056964608]; zero_point := [128];
                              quantized_dimension := 0 |} |};
     allocation_type := kTfLiteArenaRw;
     is_variable := false; data_raw := None; bytes := 6; name := "per_tensor" |}.

(** A tensor of rank 4 quantized per channel along its last axis. *)
Definition ex_per_channel : TfLiteTensor :=
  {| type := kTfLiteInt8; dims := [2; 3; 4; 5];
     quantization :=
       {| q_type := kTfLiteAffineQuantization;
          q_params :=
            Some {| scale := [1056964608; 1048576000; 1040187392; 1031798784;
                              1023410176];
                    zero_point := [0; 0; 0; 0; 0];
                    quantized_dimension := 3 |} |};
     allocation_type := kTfLiteArenaRw;
     is_variable := false; data_raw := None; bytes := 120; name := "per_channel" |}.

Example CreateTensorSpec_nhwc :
  CreateTensorSpec ex_ConvertAxis ex_nhwc [] TRANSIENT =
  Done {| datatype_ := FLOAT32; shape_ := [5; 4; 3; 2]; attr_ := TRANSIENT;
          quantization_ := Quantization_default |} [].
Proof. reflexivity. Qed.

(** Gathering through [[0; 3; 1; 2]] gives [[N; C; H; W]], reversed
    [[W; H; C; N]]. *)
Example CreateTensorSpec_nhwc_permuted :
  CreateTensorSpec ex_ConvertAxis ex_nhwc [0; 3; 1; 2]%nat TRANSIENT =
  Done {| datatype_ := FLOAT32; shape_ := [4; 3; 5; 2]; attr_ := TRANSIENT;
          quantization_ := Quantization_default |} [].
Proof. reflexivity. Qed.

(** Reversing first and gathering then gives another shape. *)
Example reverse_then_gather_differs :
  (fun p => nth p (reverse (TfLiteTensorDims ex_nhwc)) 0) <$> [0; 3; 1; 2]%nat
  = [5; 2; 4; 3].
Proof. reflexivity. Qed.

Lemma CreateTensorSpec_shape_witness :
  quantization_ok ex_nhwc = true /\
  perm_ok ex_nhwc [0; 3; 1; 2]%nat = true /\
  exists spec log,
    CreateTensorSpec ex_ConvertAxis ex_nhwc [0; 3; 1; 2]%nat TRANSIENT
      = Done spec log /\
    shape_ spec = [4; 3; 5; 2].
Proof.
  split; [reflexivity|]. split; [reflexivity|].
  exact (CreateTensorSpec_shape ex_ConvertAxis ex_nhwc [0; 3; 1; 2]%nat TRANSIENT
           eq_refl eq_refl).
Defined.

(** The shape of a scalar is not its host shape reversed. *)
Lemma CreateTensorSpec_scalar_not_reversed :
  CreateTensorSpec ex_ConvertAxis ex_scalar [] TRANSIENT =
    Done {| datatype_ := FLOAT32; shape_ := [1]; attr_ := TRANSIENT;
            quantization_ := Quantization_default |} [] /\
  [1] <> reverse (dims ex_scalar).
Proof. split; [reflexivity | discriminate]. Qed.

Lemma CreateTensorSpec_scalar_witness :
  dims ex_scalar = [] /\
  quantization_ok ex_scalar = true /\
  exists spec log,
    CreateTensorSpec ex_ConvertAxis ex_scalar [] INPUT = Done spec log /\
    shape_ spec = [1].
Proof.
  split; [reflexivity|]. split; [reflexivity|].
  exact (CreateTensorSpec_scalar ex_ConvertAxis ex_scalar [] INPUT eq_refl eq_refl).
Defined.

(** With the axis counted from the other end, the converted channel axis
    names, in the reversed shape, the dimension that the host channel axis
    names in the host shape. *)
Lemma ex_ConvertAxis_reversed (dims : list Z) (axis : nat) :
  (axis < length dims)%nat ->
  reverse dims !! Z.to_nat (ex_ConvertAxis (Z.of_nat axis) (Z.of_nat (length dims)))
  = dims !! axis.
Proof.
  intros Hlt. unfold ex_ConvertAxis.
  replace (Z.to_nat (Z.of_nat (length dims) - 1 - Z.of_nat axis))
    with (length dims - 1 - axis)%nat by lia.
  rewrite reverse_lookup by lia. f_equal. lia.
Qed.

Example CreateTensorSpec_per_tensor :
  CreateTensorSpec ex_ConvertAxis ex_per_tensor [] INPUT =
  Done {| datatype_ := UINT8; shape_ := [3; 2]; attr_ := INPUT;
          quantization_ := Quantization_scalar ASYMMETRIC 1056964608 128 |} [].
Proof. reflexivity. Qed.

(** The channel axis 3 of the host becomes the axis 0 of the accelerator,
    where the reversed shape has the 5 channels. *)
Lemma CreateTensorSpec_quantization_witness :
  perm_ok ex_per_channel [] = true /\
  quantization_ok ex_per_channel = true /\
  exists spec log,
    CreateTensorSpec utils.ConvertAxis ex_per_channel [] CONSTANT = Done spec log /\
    shape_ spec = [5; 4; 3; 2] /\
    quantization_ spec =
      Quantization_channel SYMMETRIC_PER_CHANNEL 0
        [1056964608; 1048576000; 1040187392; 1031798784; 1023410176]
        [0; 0; 0; 0; 0] /\
    shape_ spec !! Z.to_nat 0 = Some 5.
Proof.
  split; [reflexivity|]. split; [reflexivity|].
  destruct (CreateTensorSpec_quantization ex_per_channel [] CONSTANT
              eq_refl eq_refl) as (spec & log & E & _ & Hq).
  exists spec, log. split; [exact E|].
  destruct (Hq ltac:(simpl; lia)) as (Hquantization & _ & Hshape).
  split; [|split; [exact Hquantization|]].
  - vm_compute in E. by injection E as <- _.
  - exact (Hshape eq_refl ltac:(simpl; lia) 5 eq_refl).
Defined.

(** With the permutation [[0; 3; 1; 2]] the 5 channels are at the axis 2
    of the accelerator shape, and the channel axis of the spec is still
    the axis 0, where the shape has the size 4: the axis is converted from
    the host axis alone and does not follow the rule applied to the
    shape. *)
Lemma CreateTensorSpec_channel_axis_not_permuted :
  exists spec log,
    CreateTensorSpec utils.ConvertAxis ex_per_channel [0; 3; 1; 2]%nat CONSTANT
      = Done spec log /\
    shape_ spec = [4; 3; 5; 2] /\
    quantization_ spec =
      Quantization_channel SYMMETRIC_PER_CHANNEL 0
        [1056964608; 1048576000; 1040187392; 1031798784; 1023410176]
        [0; 0; 0; 0; 0] /\
    dims ex_per_channel !! 3%nat = Some 5 /\
    shape_ spec !! 2%nat = Some 5 /\
    shape_ spec !! 0%nat <> Some 5.
Proof. eexists _, _. split; [reflexivity|]. repeat split. discriminate. Qed.

(** A catalogue entry that accepts every node and appends one operation
    of kind [kind]. *)
Definition ex_mapper (kind : string) (param_size : nat) : IOpMapper :=
  {| IsSupported := fun _ _ _ => true;
     GetParamSize := param_size;
     GetStateTensorIndexes := fun _ _ _ => (false, []);
     MapOp := fun graph inputs outputs _ _ =>
       {| g_tensors := g_tensors graph;
          g_ops := g_ops graph
                   ++ [{| op_kind := kind; op_inputs := inputs;
                          op_outputs := outputs |}] |} |}.

(** A catalogue entry that refuses every node. *)
Definition ex_refusing_mapper : IOpMapper :=
  {| IsSupported := fun _ _ _ => false;
     GetParamSize := 0;
     GetStateTensorIndexes := fun _ _ _ => (false, []);
     MapOp := fun graph _ _ _ _ => graph |}.

(** Builtin code 0 is registered and accepts, builtin code 7 is registered
    and refuses; the custom operator [VxCustom] is registered. *)
Definition ex_builtins : gmap Z IOpMapper :=
  <[0 := ex_mapper "Add" 4]> (<[7 := ex_refusing_mapper]> ∅).

Definition ex_customs : gmap string IOpMapper :=
  <["VxCustom" := ex_mapper "Custom" 2]> ∅.

Definition ex_bytes (n : nat) : list Byte.byte := replicate n Byte.x2a.

Definition ex_tensor (type : TfLiteType) (dims : list Z)
    (allocation_type : TfLiteAllocationType) (data : option (list Byte.byte))
    (name : string) : TfLiteTensor :=
  {| type := type; dims := dims; quantization := no_quantization;
     allocation_type := allocation_type; is_variable := false;
     data_raw := data; bytes := 24; name := name |}.

Definition ex_reg (code : Z) : TfLiteRegistration :=
  {| builtin_code := code; custom_name := None |}.

Definition ex_node (inputs outputs : list Z) : TfLiteNode :=
  {| inputs := inputs; outputs := outputs; user_data := None;
     builtin_data := Some (ex_bytes 4) |}.

(** A plan of five nodes over four tensors: the nodes 1 and 3 are
    additions (builtin code 0), the nodes 0, 2 and 4 have the builtin code
    99, which is in no registry.  The tensor 1 holds constant weights. *)
Definition ex_context : TfLiteContext :=
  {| tensors :=
       [ex_tensor kTfLiteFloat32 [2; 3] kTfLiteArenaRw (Some (ex_bytes 24)) "input";
        ex_tensor kTfLiteFloat32 [2; 3] kTfLiteMmapRo (Some (ex_bytes 24)) "weights";
        ex_tensor kTfLiteFloat32 [2; 3] kTfLiteArenaRw None "sum";
        ex_tensor kTfLiteFloat32 [2; 3] kTfLiteArenaRw (Some (ex_bytes 24)) "output"];
     GetExecutionPlan := (kTfLiteOk, Some [0; 1; 2; 3; 4]);
     GetNodeAndRegistration := fun node_index =>
       if decide (node_index = 1) then
         (kTfLiteOk, Some (ex_node [0; 1] [2], ex_reg 0))
       else if decide (node_index = 3) then
         (kTfLiteOk, Some (ex_node [2; -1] [3], ex_reg 0))
       else if decide (0 <= node_index <= 4) then
         (kTfLiteOk, Some (ex_node [] [], ex_reg 99))
       else (kTfLiteError, None);
     ReplaceNodeSubsetsWithDelegateKernels := fun _ => kTfLiteOk |}.

Definition ex_params : TfLiteDelegateParams :=
  {| nodes_to_replace := [1; 3]; input_tensors := [0; 1]; output_tensors := [3] |}.

Example SupportedOp_custom :
  SupportedOp ex_builtins ex_customs ex_context (ex_node [] [])
    {| builtin_code := 32; custom_name := Some "VxCustom" |} = Done true [].
Proof. reflexivity. Qed.

Example SupportedOp_custom_falls_back :
  SupportedOp ex_builtins ex_customs ex_context (ex_node [] [])
    {| builtin_code := 7; custom_name := Some "Other" |} = Done false [].
Proof. reflexivity. Qed.

Example SupportedOp_absent :
  SupportedOp ex_builtins ex_customs ex_context (ex_node [] []) (ex_reg 99) =
  Done false
    [(ERROR, [LStr "Fallback unsupported op "; LInt 99; LStr " to TfLite"])].
Proof. reflexivity. Qed.

(** The plan of five nodes: the nodes 1 and 3 are accepted, and the array
    handed to the host starts with their number. *)
Lemma PrepareDelegate_accepted_witness :
  GetExecutionPlan ex_context = (kTfLiteOk, Some [0; 1; 2; 3; 4]) /\
  Forall (fun node_index =>
            exists out, GetNodeAndRegistration ex_context node_index
                        = (kTfLiteOk, Some out)) [0; 1; 2; 3; 4] /\
  Z.of_nat (length [0; 1; 2; 3; 4]) <= INT_MAX /\
  exists log,
    PrepareDelegate ex_builtins ex_customs ex_context =
      Done (kTfLiteOk, Some [2; 1; 3]) log /\
    as_TfLiteIntArray [2; 1; 3] = Some (2, [1; 3]).
Proof.
  assert (Forall (fun node_index =>
            exists out, GetNodeAndRegistration ex_context node_index
                        = (kTfLiteOk, Some out)) [0; 1; 2; 3; 4]) as Hplan.
  { repeat constructor; eexists; reflexivity. }
  split; [reflexivity|]. split; [exact Hplan|]. split; [vm_compute; discriminate|].
  exact (PrepareDelegate_accepted ex_builtins ex_customs ex_context [0; 1; 2; 3; 4]
           eq_refl Hplan ltac:(vm_compute; discriminate)).
Defined.

Lemma Init_subgraph_inputs_outputs_witness :
  operations_ Delegate_new = [] /\
  Forall (fun idx => 0 <= idx < Z.of_nat (length (tensors ex_context)))
    (input_tensors ex_params) /\
  Forall (fun node_idx => Init_node_ok ex_builtins ex_customs ex_context node_idx = true)
    (nodes_to_replace ex_params) /\
  exists d' op_data log,
    Init ex_builtins ex_customs Delegate_new ex_context ex_params
      = Done (d', op_data) log /\
    subgraph_inputs op_data = [0] /\
    subgraph_outputs op_data = [3].
Proof.
  assert (Forall (fun idx => 0 <= idx < Z.of_nat (length (tensors ex_context)))
            (input_tensors ex_params)) as Hin.
  { repeat constructor; simpl; lia. }
  assert (Forall (fun node_idx =>
                    Init_node_ok ex_builtins ex_customs ex_context node_idx = true)
            (nodes_to_replace ex_params)) as Hnodes.
  { repeat constructor. }
  split; [reflexivity|]. split; [exact Hin|]. split; [exact Hnodes|].
  exact (Init_subgraph_inputs_outputs ex_builtins ex_customs Delegate_new
           ex_context ex_params eq_refl Hin Hnodes).
Defined.

Example MapIndexesToTensors_example :
  MapIndexesToTensors [Some 1%nat; Some 2%nat; None; Some 0%nat] [0; -1; 2; 1]
  = Done [Some 1%nat; Some 0%nat; None; Some 2%nat] [].
Proof. reflexivity. Qed.

(** In the place of [tflite::reference_ops::Transpose]: the transpose of a
    matrix of [rows] x [cols] elements of [width] bytes each, for the
    permutation [[1; 0]]; any other call leaves the buffer as it is. *)
Definition ex_Transpose (width : nat) (perm : list nat) (input_shape : list Z)
    (input : list Byte.byte) (output_shape : list Z) (output : list Byte.byte)
    : list Byte.byte :=
  match perm, input_shape with
  | [1; 0]%nat, [rows; cols] =>
      let element r c :=
        take width (drop ((r * Z.to_nat cols + c) * width) input) in
      c ← seq 0 (Z.to_nat cols); r ← seq 0 (Z.to_nat rows); element r c
  | _, _ => output
  end.

Definition ex_matrix : list Byte.byte :=
  [Byte.x01; Byte.x02; Byte.x03; Byte.x04; Byte.x05; Byte.x06].

(** A constant matrix of 2 x 3 bytes, and a constant of 64-bit integers,
    for which there is no transpose. *)
Definition ex_const_int8 : TfLiteTensor :=
  {| type := kTfLiteInt8; dims := [2; 3]; quantization := no_quantization;
     allocation_type := kTfLiteMmapRo; is_variable := false;
     data_raw := Some ex_matrix; bytes := 6; name := "matrix" |}.

Definition ex_const_int64 : TfLiteTensor :=
  {| type := kTfLiteInt64; dims := [1; 2]; quantization := no_quantization;
     allocation_type := kTfLiteMmapRo; is_variable := false;
     data_raw := Some (ex_bytes 16); bytes := 16; name := "wide" |}.

Example TransposeTensorData_int8 :
  TransposeTensorData ex_Transpose 6 ex_const_int8 [1; 0]%nat [] =
  Done (true, [Byte.x01; Byte.x04; Byte.x02; Byte.x05; Byte.x03; Byte.x06]) [].
Proof. reflexivity. Qed.

Example CreateTensor_constant_transposed :
  CreateTensor ex_ConvertAxis ex_Transpose 6 Graph_empty ex_const_int8 CONSTANT
    [1; 0]%nat =
  Done (Graph_CreateTensor Graph_empty
          {| datatype_ := INT8; shape_ := [2; 3]; attr_ := CONSTANT;
             quantization_ := Quantization_default |}
          (Some [Byte.x01; Byte.x04; Byte.x02; Byte.x05; Byte.x03; Byte.x06])) [].
Proof. reflexivity. Qed.

Lemma CreateTensor_constant_permuted_witness :
  [1; 0]%nat <> [] /\
  perm_ok ex_const_int64 [1; 0]%nat = true /\
  quantization_ok ex_const_int64 = true /\
  (length [1; 0]%nat <= 6)%nat /\
  exists spec transposed data_transposed log_spec log_transpose,
    CreateTensorSpec ex_ConvertAxis ex_const_int64 [1; 0]%nat CONSTANT
      = Done spec log_spec /\
    TransposeTensorData ex_Transpose 6 ex_const_int64 [1; 0]%nat [] =
      Done (transposed, data_transposed) log_transpose /\
    transposed = false /\
    CreateTensor ex_ConvertAxis ex_Transpose 6 Graph_empty ex_const_int64 CONSTANT
      [1; 0]%nat =
      Done (Graph_CreateTensor Graph_empty spec
              (if transposed then Some data_transposed
               else data_raw ex_const_int64))
        (log_spec ++ log_transpose).
Proof.
  split; [discriminate|]. split; [reflexivity|]. split; [reflexivity|].
  split; [simpl; lia|].
  exact (CreateTensor_constant_permuted ex_ConvertAxis ex_Transpose 6 Graph_empty
           ex_const_int64 [1; 0]%nat ltac:(discriminate) eq_refl eq_refl
           ltac:(simpl; lia)).
Defined.

(** A constant with a permutation is created although its transpose
    fails: from the bytes of the host tensor as they are. *)
Lemma CreateTensor_constant_without_transpose :
  TransposeTensorData ex_Transpose 6 ex_const_int64 [1; 0]%nat [] =
    Done (false, replicate 16 Byte.x00)
      [(ERROR, [LStr "Unsupported type: "; LInt 4])] /\
  CreateTensor ex_ConvertAxis ex_Transpose 6 Graph_empty ex_const_int64 CONSTANT
    [1; 0]%nat =
    Done ({| g_tensors :=
               [VxTensor_created
                  {| datatype_ := FLOAT32; shape_ := [1; 2]; attr_ := CONSTANT;
                     quantization_ := Quantization_default |}
                  (data_raw ex_const_int64)];
             g_ops := [] |},
          Some 0%nat)
      [(ERROR, [LStr "Unsuppoted type:"; LInt 4]);
       (ERROR, [LStr "Unsupported type: "; LInt 4])].
Proof. split; reflexivity. Qed.

(** The build on the example context: the placeholder, then the subgraph
    input 0, the subgraph output 3 and the operands 0, 1 and 2 of the
    first addition.  The tensor 0 is touched twice. *)
Definition ex_spec (attr : TensorAttribute) : TensorSpec :=
  {| datatype_ := FLOAT32; shape_ := [3; 2]; attr_ := attr;
     quantization_ := Quantization_default |}.


Definition ex_graph1 : Graph :=
  {| g_tensors := [VxTensor_placeholder; VxTensor_created (ex_spec INPUT) None];
     g_ops := [] |}.








(** The delegate and the [OpData] that [Init] makes of the example. *)
Definition ex_delegate : Delegate :=
  {| compiled_ := false; graph_ := Graph_empty;
     tensors_ := [None; None; None; None; None];
     state_tensors_ := [None; None; None; None; None];
     operations_ :=
       [{| Op.builtin_code := 0; Op.custom_name := EmptyString; Op.inputs := [0; 1];
           Op.outputs := [2]; Op.states := []; Op.builtin_data := ex_bytes 4 |};
        {| Op.builtin_code := 0; Op.custom_name := EmptyString; Op.inputs := [2; -1];
           Op.outputs := [3]; Op.states := []; Op.builtin_data := ex_bytes 4 |}];
     layout_infered_ := (Graph_empty, ∅) |}.

Definition ex_op_data : OpData :=
  {| subgraph_inputs := [0]; subgraph_outputs := [3]; subgraph_states := [] |}.

Example Init_example :
  Init ex_builtins ex_customs Delegate_new ex_context ex_params =
  Done (ex_delegate, ex_op_data) [(INFO, [LStr "vx_delegate Delegate::Init"])].
Proof. reflexivity. Qed.




Example Invoke_operands_resolved_example :
  exists graph state_tensors log,
    Invoke_build_graph ex_ConvertAxis ex_Transpose 6 ex_builtins ex_customs
      ex_op_data ex_delegate ex_context
      = Done (graph, [Some 1; Some 3; Some 4; Some 2; Some 0]%nat, state_tensors)
          log /\
    MapIndexesToTensors [Some 1; Some 3; Some 4; Some 2; Some 0]%nat [2; -1]
      = Done [Some 4; Some 0]%nat [].
Proof. eexists _, _, _. split; reflexivity. Qed.


(** A runtime whose layout inference keeps the graph and whose copies do
    nothing; [Compile] and [Run] answer [compiles] and [runs]. *)
Definition ex_LayoutInference (graph : Graph) : Graph * gmap Handle Handle :=
  (graph, list_to_map ((fun h => (h, h)) <$> seq 0 (length (g_tensors graph)))).

Definition ex_Invoke (compiles runs : bool) :=
  Invoke ex_ConvertAxis ex_Transpose 6 ex_builtins ex_customs unit
    ex_LayoutInference (fun _ => compiles) (fun _ device => (runs, device))
    (fun device _ _ => device) (fun _ _ buffer => buffer).

Definition ex_machine : Machine unit :=
  {| m_delegate := ex_delegate; m_context := ex_context; m_device := tt |}.

Example Invoke_succeeds :
  exists m, ex_Invoke true true ex_op_data ex_machine (ex_node [] []) =
  Done (kTfLiteOk, m)
    [(INFO, [LStr "Delegate::Invoke node:"; LPtr]);
     (INFO, [LStr "Verifying graph"]);
     (INFO, [LStr "Verified graph"]);
     (INFO, [LStr "Copying input "; LInt 0; LStr ":"; LStr "input"]);
     (INFO, [LStr "Invoking graph"]);
     (INFO, [LStr "Copying output "; LInt 3; LStr ":"; LStr "output"])].
Proof. eexists. reflexivity. Qed.

Lemma Invoke_run_failure_aborts_witness :
  ex_Invoke true false ex_op_data ex_machine (ex_node [] []) =
    Aborted [(INFO, [LStr "Delegate::Invoke node:"; LPtr]);
             (INFO, [LStr "Verifying graph"]);
             (INFO, [LStr "Verified graph"]);
             (INFO, [LStr "Copying input "; LInt 0; LStr ":"; LStr "input"]);
             (INFO, [LStr "Invoking graph"]);
             (FATAL, [LStr "Failed to run graph"])] /\
  ex_Invoke false true ex_op_data ex_machine (ex_node [] []) =
    Aborted [(INFO, [LStr "Delegate::Invoke node:"; LPtr]);
             (INFO, [LStr "Verifying graph"]);
             (FATAL, [LStr "Failed to verify graph"])].
Proof.
  split.
  - refine (proj1 (Invoke_run_failure_aborts ex_ConvertAxis ex_Transpose 6
                     ex_builtins ex_customs unit ex_LayoutInference
                     (fun _ => true) (fun _ device => (false, device))
                     (fun device _ _ => device) (fun _ _ buffer => buffer)
                     ex_op_data ex_machine (ex_node [] []))
              _ [(INFO, [LStr "Delegate::Invoke node:"; LPtr]);
                 (INFO, [LStr "Verifying graph"]);
                 (INFO, [LStr "Verified graph"]);
                 (INFO, [LStr "Copying input "; LInt 0; LStr ":"; LStr "input"])]
              _ _); reflexivity.
  - refine (proj2 (Invoke_run_failure_aborts ex_ConvertAxis ex_Transpose 6
                     ex_builtins ex_customs unit ex_LayoutInference
                     (fun _ => false) (fun _ device => (true, device))
                     (fun device _ _ => device) (fun _ _ buffer => buffer)
                     ex_op_data ex_machine (ex_node [] []))
              _ _ _ [] _ _ _); reflexivity.
Defined.

(** ** Further examples *)

(** A shape entry that is negative in [int] arrives as a large
    [uint32_t]. *)
Definition ex_negative_dim : TfLiteTensor :=
  {| type := kTfLiteFloat32; dims := [2; -1; 3]; quantization := no_quantization;
     allocation_type := kTfLiteArenaRw; is_variable := false;
     data_raw := None; bytes := 0; name := "dynamic" |}.

Lemma TfLiteTensorDims_conversion_witness :
  Forall (fun d => - 2 ^ 31 <= d < 2 ^ 31) (dims ex_negative_dim) /\
  TfLiteTensorDims ex_negative_dim = [2; 4294967295; 3] /\
  Forall2 (fun d converted =>
             0 <= converted < 2 ^ 32 /\
             converted = if decide (d < 0) then d + 2 ^ 32 else d)
    (dims ex_negative_dim) (TfLiteTensorDims ex_negative_dim).
Proof.
  assert (Forall (fun d => - 2 ^ 31 <= d < 2 ^ 31) (dims ex_negative_dim)) as H.
  { repeat constructor; simpl; lia. }
  split; [exact H|]. split; [reflexivity|].
  exact (TfLiteTensorDims_conversion ex_negative_dim H).
Defined.

Example CreateTensorSpec_defined_examples :
  (exists spec log, CreateTensorSpec ex_ConvertAxis ex_nhwc [0; 3; 1; 2]%nat INPUT
                    = Done spec log) /\
  CreateTensorSpec ex_ConvertAxis ex_nhwc [0; 4; 1; 2]%nat INPUT = Undefined /\
  CreateTensorSpec ex_ConvertAxis ex_nhwc [0; 1]%nat INPUT = Undefined.
Proof. split; [by eexists _, _ | by split]. Qed.

(** A tensor of 64-bit integers gets a specification of 32-bit floats and
    one line in the log. *)
Lemma CreateTensorSpec_unknown_type_witness :
  exists spec,
    CreateTensorSpec ex_ConvertAxis ex_const_int64 [] CONSTANT
      = Done spec [(ERROR, [LStr "Unsuppoted type:"; LInt 4])] /\
    attr_ spec = CONSTANT /\
    datatype_ spec = FLOAT32 /\
    [(ERROR, [LStr "Unsuppoted type:"; LInt 4])]
      = [(ERROR, [LStr "Unsuppoted type:";
                  LInt (TfLiteType_code (type ex_const_int64))])].
Proof.
  eexists. split; [reflexivity|].
  exact (CreateTensorSpec_unknown_type ex_ConvertAxis ex_const_int64 [] CONSTANT
           _ _ eq_refl).
Defined.

Lemma CreateTensorSpec_element_count_witness :
  quantization_ok ex_nhwc = true /\
  [0; 3; 1; 2]%nat ≡ₚ seq 0 (length (dims ex_nhwc)) /\
  exists spec log,
    CreateTensorSpec ex_ConvertAxis ex_nhwc [0; 3; 1; 2]%nat INPUT = Done spec log /\
    element_count (shape_ spec) = element_count (TfLiteTensorDims ex_nhwc) /\
    (dims ex_nhwc <> [] -> shape_ spec ≡ₚ TfLiteTensorDims ex_nhwc).
Proof.
  assert ([0; 3; 1; 2]%nat ≡ₚ seq 0 (length (dims ex_nhwc))) as Hperm.
  { simpl. apply Permutation_skip.
    etransitivity; [apply Permutation_swap|]. apply Permutation_skip.
    apply Permutation_swap. }
  split; [reflexivity|]. split; [exact Hperm|].
  exact (CreateTensorSpec_element_count ex_ConvertAxis ex_nhwc [0; 3; 1; 2]%nat
           INPUT eq_refl (or_intror Hperm)).
Defined.

Example TransposeTensorData_defined_examples :
  (exists r log, TransposeTensorData ex_Transpose 6 ex_const_int8 [1; 0]%nat []
                 = Done r log) /\
  TransposeTensorData ex_Transpose 6 ex_const_int8 [1; 2]%nat [] = Undefined /\
  TransposeTensorData ex_Transpose 1 ex_const_int8 [1; 0]%nat [] = Undefined.
Proof. split; [by eexists _, _ | by split]. Qed.

(** A constant created without permutation is the third tensor of a graph
    of two and shares the data of the host tensor. *)
Lemma CreateTensor_appends_witness :
  exists graph' log,
    CreateTensor ex_ConvertAxis ex_Transpose 6 ex_graph1 ex_const_int8 CONSTANT []
      = Done (graph', Some 2%nat) log /\
    Some 2%nat = Some (length (g_tensors ex_graph1)) /\
    g_ops graph' = g_ops ex_graph1 /\
    exists spec data,
      g_tensors graph' = g_tensors ex_graph1 ++ [VxTensor_created spec data] /\
      attr_ spec = CONSTANT /\
      shape_ spec = [3; 2] /\
      (CONSTANT <> CONSTANT -> data = None) /\
      (CONSTANT = CONSTANT -> @nil nat = [] -> data = Some ex_matrix).
Proof.
  eexists _, _. split; [reflexivity|].
  exact (CreateTensor_appends ex_ConvertAxis ex_Transpose 6 ex_graph1
           ex_const_int8 CONSTANT [] _ _ _ eq_refl).
Defined.

(** The plan names a node that the host does not know, after a node it
    knows. *)
Definition ex_context_unknown_node : TfLiteContext :=
  {| tensors := tensors ex_context;
     GetExecutionPlan := (kTfLiteOk, Some [1; 9; 3]);
     GetNodeAndRegistration := GetNodeAndRegistration ex_context;
     ReplaceNodeSubsetsWithDelegateKernels :=
       ReplaceNodeSubsetsWithDelegateKernels ex_context |}.

Lemma PrepareDelegate_lookup_failure_witness :
  GetExecutionPlan ex_context_unknown_node = (kTfLiteOk, Some ([1] ++ 9 :: [3])) /\
  Forall (fun i => exists o, GetNodeAndRegistration ex_context_unknown_node i
                             = (kTfLiteOk, Some o)) [1] /\
  GetNodeAndRegistration ex_context_unknown_node 9 = (kTfLiteError, None) /\
  kTfLiteError <> kTfLiteOk /\
  exists log,
    PrepareDelegate ex_builtins ex_customs ex_context_unknown_node
      = Done (kTfLiteError, None) log.
Proof.
  assert (Forall (fun i => exists o, GetNodeAndRegistration ex_context_unknown_node i
                                     = (kTfLiteOk, Some o)) [1]) as Hpre.
  { repeat constructor. eexists. reflexivity. }
  split; [reflexivity|]. split; [exact Hpre|]. split; [reflexivity|].
  split; [discriminate|].
  exact (PrepareDelegate_lookup_failure ex_builtins ex_customs
           ex_context_unknown_node [1] 9 [3] kTfLiteError None eq_refl Hpre eq_refl
           ltac:(discriminate)).
Defined.

Lemma PrepareDelegate_result_witness :
  exists log,
    PrepareDelegate ex_builtins ex_customs ex_context
      = Done (kTfLiteOk, Some [2; 1; 3]) log /\
    kTfLiteOk = ReplaceNodeSubsetsWithDelegateKernels ex_context [2; 1; 3] /\
    exists plan count accepted,
      GetExecutionPlan ex_context = (kTfLiteOk, Some plan) /\
      [2; 1; 3] = count :: accepted /\
      accepted `sublist_of` plan.
Proof.
  eexists. split; [reflexivity|].
  exact (PrepareDelegate_result ex_builtins ex_customs ex_context kTfLiteOk
           (Some [2; 1; 3]) _ eq_refl).
Defined.

Lemma Registration_init_records_witness :
  Registration_init ex_builtins ex_customs ex_context ex_params
    = Done (ex_op_data, ex_delegate) [(INFO, [LStr "vx_delegate Delegate::Init"])] /\
  compiled_ ex_delegate = false /\
  tensors_ ex_delegate = replicate (S (length (tensors ex_context))) None /\
  state_tensors_ ex_delegate = replicate (S (length (tensors ex_context))) None /\
  Forall2 (extracted_from ex_context) (nodes_to_replace ex_params)
    (operations_ ex_delegate) /\
  subgraph_states ex_op_data = concat (Op.states <$> operations_ ex_delegate).
Proof.
  split; [reflexivity|].
  exact (Registration_init_records ex_builtins ex_customs ex_context ex_params
           ex_op_data ex_delegate _ eq_refl).
Defined.

Example Registration_init_undefined :
  Registration_init ex_builtins ex_customs ex_context
    {| nodes_to_replace := [1; 2]; input_tensors := [0]; output_tensors := [3] |}
    = Undefined /\
  Registration_init ex_builtins ex_customs ex_context
    {| nodes_to_replace := [1]; input_tensors := [-1]; output_tensors := [3] |}
    = Undefined.
Proof. by split. Qed.

(** The host has a node whose registration names a custom operator that
    is in no registry, with a builtin code that is. *)
Definition ex_unregistered_custom : TfLiteRegistration :=
  {| builtin_code := 0; custom_name := Some "Other" |}.

Definition ex_context_custom : TfLiteContext :=
  {| tensors := tensors ex_context;
     GetExecutionPlan := GetExecutionPlan ex_context;
     GetNodeAndRegistration := fun node_index =>
       if decide (node_index = 2) then
         (kTfLiteOk, Some (ex_node [0; 1] [2], ex_unregistered_custom))
       else GetNodeAndRegistration ex_context node_index;
     ReplaceNodeSubsetsWithDelegateKernels :=
       ReplaceNodeSubsetsWithDelegateKernels ex_context |}.

Definition ex_params_custom : TfLiteDelegateParams :=
  {| nodes_to_replace := [1; 2]; input_tensors := [0; 1]; output_tensors := [2] |}.

Lemma SupportedOp_fallback_not_extracted_witness :
  (GetNodeAndRegistration ex_context_custom 2).2
    = Some (ex_node [0; 1] [2], ex_unregistered_custom) /\
  ex_customs !! "Other" = None /\
  ex_builtins !! 0 = Some (ex_mapper "Add" 4) /\
  2 ∈ nodes_to_replace ex_params_custom /\
  SupportedOp ex_builtins ex_customs ex_context_custom (ex_node [0; 1] [2])
    ex_unregistered_custom = Done true [] /\
  forall r log,
    Registration_init ex_builtins ex_customs ex_context_custom ex_params_custom
    <> Done r log.
Proof.
  assert (2 ∈ nodes_to_replace ex_params_custom) as Hin.
  { simpl. apply list_elem_of_further, list_elem_of_here. }
  split; [reflexivity|]. split; [reflexivity|]. split; [reflexivity|].
  split; [exact Hin|].
  exact (SupportedOp_fallback_not_extracted ex_builtins ex_customs ex_context_custom
           ex_params_custom 2 (ex_node [0; 1] [2]) ex_unregistered_custom "Other"
           (ex_mapper "Add" 4) eq_refl eq_refl ltac:(discriminate) eq_refl eq_refl
           Hin).
Defined.

(** The machine after a first invocation, which has built and compiled
    the graph. *)
Definition ex_machine_compiled : Machine unit :=
  match ex_Invoke true true ex_op_data ex_machine (ex_node [] []) with
  | Done (_, m) _ => m
  | _ => ex_machine
  end.

Lemma Invoke_compiled_keeps_delegate_witness :
  compiled_ (m_delegate ex_machine_compiled) = true /\
  exists m' log,
    ex_Invoke true true ex_op_data ex_machine_compiled (ex_node [] [])
      = Done (kTfLiteOk, m') log /\
    kTfLiteOk = kTfLiteOk /\
    m_delegate m' = m_delegate ex_machine_compiled.
Proof.
  split; [reflexivity|]. eexists _, _. split; [reflexivity|].
  exact (Invoke_compiled_keeps_delegate ex_ConvertAxis ex_Transpose 6
           ex_builtins ex_customs unit ex_LayoutInference (fun _ => true)
           (fun _ device => (true, device)) (fun device _ _ => device)
           (fun _ _ buffer => buffer) ex_op_data ex_machine_compiled (ex_node [] [])
           _ _ _ eq_refl eq_refl).
Defined.

Lemma Invoke_ok_indexes_witness :
  exists m' log,
    ex_Invoke true true ex_op_data ex_machine (ex_node [] [])
      = Done (kTfLiteOk, m') log /\
    compiled_ (m_delegate m') = true /\
    Forall (copy_ready (m_delegate m') (tensors_ (m_delegate m'))
              (m_context ex_machine)) [0; 3] /\
    Forall (copy_ready (m_delegate m') (state_tensors_ (m_delegate m'))
              (m_context ex_machine)) [].
Proof.
  eexists _, _. split; [reflexivity|].
  exact (Invoke_ok_indexes ex_ConvertAxis ex_Transpose 6
           ex_builtins ex_customs unit ex_LayoutInference (fun _ => true)
           (fun _ device => (true, device)) (fun device _ _ => device)
           (fun _ _ buffer => buffer) ex_op_data ex_machine (ex_node [] [])
           _ _ eq_refl).
Defined.

(** A runtime as [ex_Invoke], but whose copy from a tensor fills the host
    buffer with the byte 7. *)
Definition ex_Invoke_filling :=
  Invoke ex_ConvertAxis ex_Transpose 6 ex_builtins ex_customs unit
    ex_LayoutInference (fun _ => true) (fun _ device => (true, device))
    (fun device _ _ => device)
    (fun _ _ buffer => (fun data => replicate (length data) Byte.x07) <$> buffer).

Example Invoke_fills_output :
  exists m' log,
    ex_Invoke_filling ex_op_data ex_machine (ex_node [] [])
      = Done (kTfLiteOk, m') log /\
    data_raw <$> tensors (m_context m')
      = [Some (ex_bytes 24); Some (ex_bytes 24); None;
         Some (replicate 24 Byte.x07)].
Proof. eexists _, _. split; reflexivity. Qed.

Lemma Invoke_writes_only_results_witness :
  exists m' log,
    ex_Invoke_filling ex_op_data ex_machine (ex_node [] [])
      = Done (kTfLiteOk, m') log /\
    same_but_data (subgraph_outputs ex_op_data ++ subgraph_states ex_op_data)
      (m_context ex_machine) (m_context m').
Proof.
  eexists _, _. split; [reflexivity|].
  exact (Invoke_writes_only_results ex_ConvertAxis ex_Transpose 6
           ex_builtins ex_customs unit ex_LayoutInference (fun _ => true)
           (fun _ device => (true, device)) (fun device _ _ => device)
           (fun _ _ buffer => (fun data => replicate (length data) Byte.x07) <$> buffer)
           ex_op_data ex_machine (ex_node [] []) _ _ _ eq_refl).
Defined.

Lemma Invoke_build_graph_resolves_witness :
  Z.of_nat (length (tensors_ ex_delegate)) < 2 ^ 63 /\
  exists graph tensors state_tensors log,
    Invoke_build_graph ex_ConvertAxis ex_Transpose 6 ex_builtins ex_customs
      ex_op_data ex_delegate ex_context = Done (graph, tensors, state_tensors) log /\
    tensors = [Some 1%nat; Some 3%nat; Some 4%nat; Some 2%nat; Some 0%nat] /\
    length tensors = length (tensors_ ex_delegate) /\
    length state_tensors = length (state_tensors_ ex_delegate) /\
    last tensors = Some (Some 0%nat) /\
    (forall j h, (S j < length (tensors_ ex_delegate))%nat ->
       tensors_ ex_delegate !! j = Some (Some h) -> tensors !! j = Some (Some h)) /\
    (forall j h, state_tensors_ ex_delegate !! j = Some (Some h) ->
       state_tensors !! j = Some (Some h)) /\
    resolved tensors (subgraph_inputs ex_op_data ++ subgraph_outputs ex_op_data) /\
    Forall (fun op_info =>
              resolved tensors (Op.inputs op_info ++ Op.outputs op_info) /\
              resolved state_tensors (Op.states op_info))
      (operations_ ex_delegate).
Proof.
  split; [reflexivity|]. eexists _, _, _, _. split; [reflexivity|].
  split; [reflexivity|].
  exact (Invoke_build_graph_resolves ex_ConvertAxis ex_Transpose 6 ex_builtins
           ex_customs ex_op_data ex_delegate ex_context _ _ _ _
           ltac:(reflexivity) eq_refl).
Defined.

Lemma Init_then_build_witness :
  Registration_init ex_builtins ex_customs ex_context ex_params
    = Done (ex_op_data, ex_delegate) [(INFO, [LStr "vx_delegate Delegate::Init"])] /\
  Forall (fun idx => operand_ok ex_context idx = true)
    (subgraph_inputs ex_op_data ++ subgraph_outputs ex_op_data) /\
  Forall (fun op_info =>
            Forall (fun idx => operand_ok ex_context idx = true)
              (Op.inputs op_info ++ Op.outputs op_info ++ Op.states op_info))
    (operations_ ex_delegate) /\
  exists graph tensors state_tensors log',
    Invoke_build_graph ex_ConvertAxis ex_Transpose 6 ex_builtins ex_customs
      ex_op_data ex_delegate ex_context = Done (graph, tensors, state_tensors) log'.
Proof.
  assert (Forall (fun idx => operand_ok ex_context idx = true)
            (subgraph_inputs ex_op_data ++ subgraph_outputs ex_op_data)) as Hio.
  { repeat constructor. }
  assert (Forall (fun op_info =>
                    Forall (fun idx => operand_ok ex_context idx = true)
                      (Op.inputs op_info ++ Op.outputs op_info ++ Op.states op_info))
            (operations_ ex_delegate)) as Hops.
  { repeat constructor. }
  split; [reflexivity|]. split; [exact Hio|]. split; [exact Hops|].
  exact (Init_then_build ex_ConvertAxis ex_Transpose 6 ex_builtins ex_customs
           ex_context ex_params ex_op_data ex_delegate _ eq_refl Hio Hops).
Defined.

Example build_undefined_on_malformed_quantization :
  Invoke_build_graph ex_ConvertAxis ex_Transpose 6 ex_builtins ex_customs
    ex_op_data ex_delegate
    {| tensors :=
         [{| type := kTfLiteUInt8; dims := [2; 3];
             quantization := {| q_type := kTfLiteAffineQuantization;
                                q_params := None |};
             allocation_type := kTfLiteArenaRw; is_variable := false;
             data_raw := None; bytes := 6; name := "input" |}];
       GetExecutionPlan := GetExecutionPlan ex_context;
       GetNodeAndRegistration := GetNodeAndRegistration ex_context;
       ReplaceNodeSubsetsWithDelegateKernels :=
         ReplaceNodeSubsetsWithDelegateKernels ex_context |}
    = Undefined.
Proof. reflexivity. Qed.

(** The first call in a process, a deletion, and what the next calls
    meet. *)
Lemma VxDelegate_shared_then_dangling_witness :
  exists store1 store2,
    VxDelegateCreate tt DelegateStore_start = (0%nat, store1) /\
    VxDelegateDelete (Some 0%nat) store1 = Done store2 [] /\
    VxDelegateCreate tt store1 = (0%nat, store1) /\
    is_Some (live store1 !! 0%nat) /\
    live store2 !! 0%nat = None /\
    VxDelegateCreate tt store2 = (0%nat, store2) /\
    VxDelegateDelete (Some 0%nat) store2 = Undefined.
Proof.
  eexists _, _. split; [reflexivity|]. split; [reflexivity|].
  exact (VxDelegate_shared_then_dangling tt tt DelegateStore_start _ _ 0%nat []
           eq_refl eq_refl).
Defined.
